(** * markdown-transform: the Slate-to-CiceroMark mapper and the CommonMark
      stream-to-tree builder

    A shallow embedding of [slateToCiceroMarkDom.js] (the recursive mapper
    [_recursive] with its mark composer [handleText]) and of
    [CommonMarkTransformer] (the sax handlers of [fromMarkdown], [toClass],
    [capitalizeFirstLetter], [isLeafNode], [parseHtmlBlock]), followed by the
    properties of the specification that concern them.

    Conventions of the embedding.
    - A JavaScript string is the sequence of its code units; the embedding
      has the strings whose code units are below 256, one character of a
      [string] for each code unit.  The built-ins whose result depends on
      the Unicode tables ([trim], [toUpperCase], [toLowerCase]) are
      parameters of the functions that call them.
    - A JavaScript function that may throw returns an [outcome]: [Return v]
      for a normal return and [Throw e] for an exception that leaves the
      function.
    - A JavaScript object whose keys are computed at run time is a
      [gmap string _]; an object literal with fixed keys is a record.  The
      attribute object of [parseHtmlBlock], which is enumerated, is the
      list of its own properties in the order of their creation, read
      through [for_in] and [hasOwnProperty]. *)

From stdpp Require Import gmap strings list fin_maps sorting.
From Stdlib Require Import Ascii ZArith Permutation.

Set Warnings "-register-all".

(** ** Exceptions *)

(** The exceptions that can leave the modelled functions. *)
Inductive error : Type :=
| FailedToProcess      (* Error(`Failed to process node ...`) *)
| ParentNoChildren     (* Error(`Parent node doesn't have children ...`) *)
| AddToLeaf            (* the stack refusing to link a child to a frame *)
| TypeError            (* a property read or a call on undefined *)
| ParseError.          (* whatever the external HTML parser throws *)

Inductive outcome (A : Type) : Type :=
| Return (v : A)
| Throw (e : error).
Arguments Return {A} v.
Arguments Throw {A} e.

Definition bind {A B} (m : outcome A) (k : A -> outcome B) : outcome B :=
  match m with
  | Return v => k v
  | Throw e => Throw e
  end.

(** [try { m } catch (err) { h }] *)
Definition try_catch {A} (m : outcome A) (h : error -> outcome A) : outcome A :=
  match m with
  | Return v => Return v
  | Throw e => h e
  end.

Global Instance outcome_ret : MRet outcome := @Return.
Global Instance outcome_bind : MBind outcome := fun A B k m => bind m k.

Definition returns {A} (m : outcome A) : Prop := exists v, m = Return v.
Definition throws {A} (m : outcome A) : Prop := exists e, m = Throw e.

(** ** JavaScript values copied through unchanged *)

(** The values the mapper copies from the editor tree without looking at
    them ([node.text], the fields of [node.data]). *)
Inductive jsval : Type :=
| JUndefined
| JNull
| JBool (b : bool)
| JNum (n : Z)
| JStr (s : string).

(** [o[k]] on an object used as a bag of fields: a missing key reads as
    [undefined]. *)
Definition prop (o : gmap string jsval) (k : string) : jsval :=
  default JUndefined (o !! k).

(** ** The editor tree (Slate) *)

Module Slate.

(** A mark; the mapper reads only [mark.type] and compares it with three
    literals, so a mark without a string type behaves as one whose type
    is any other string. *)
Record mark : Type := Mark { mark_type : string }.

(** A node of the editor document after
    [JSON.parse(JSON.stringify(document))], with the fields the mapper
    reads.  [None] stands for an absent field. *)
Inductive node : Type :=
  Node {
      object : option string;
      type : option string;
      data : option (gmap string jsval);
      nodes : option (list node);
      text : jsval;
      marks : option (list mark)
    }.

(** The root the mapper is given: it reads [json.nodes] only. *)
Record document : Type := Document { document_nodes : option (list node) }.

End Slate.

(** ** The canonical tree (CiceroMark DOM as JSON) *)

Module Dom.

(** An output object: its [$class], its other scalar fields, and its
    [nodes] array when it has one. *)
Inductive node : Type :=
  Node {
      class : string;
      fields : gmap string jsval;
      nodes : option (list node)
    }.

(** [parent.nodes.push(child)]; a [TypeError] when [parent.nodes] is
    undefined. *)
Definition push (parent child : node) : outcome node :=
  match nodes parent with
  | Some l => Return (Node (class parent) (fields parent) (Some (l ++ [child])))
  | None => Throw TypeError
  end.

End Dom.

Definition NS : string := "org.accordproject.commonmark".
Definition NS_CICERO : string := "org.accordproject.ciceromark".

(** The template literal [`${ns}.Name`]. *)
Definition qualified (ns name : string) : string := ns +:+ "." +:+ name.

(** ** The mark composer *)

(** [marks.some(mark => mark.type === ty)] *)
Definition some_mark (ty : string) (ms : list Slate.mark) : bool :=
  existsb (fun mark => String.eqb (Slate.mark_type mark) ty) ms.

Definition handleText (node : Slate.node) : outcome Dom.node :=
  match Slate.marks node with
  | None => Throw TypeError
  | Some ms =>
      let isBold := some_mark "bold" ms in
      let isItalic := some_mark "italic" ms in
      let isCode := some_mark "code" ms in
      if isCode then
        Return (Dom.Node (qualified NS "Code") {[ "text" := Slate.text node ]} None)
      else
        let text := Dom.Node (qualified NS "Text") {[ "text" := Slate.text node ]} None in
        let strong := if isBold then Some (Dom.Node (qualified NS "Strong") ∅ (Some [])) else None in
        let emph := if isItalic then Some (Dom.Node (qualified NS "Emph") ∅ (Some [])) else None in
        match strong, emph with
        | Some strong, Some emph =>
            (* result = emph; emph.nodes.push(strong); strong.nodes.push(text):
               emph holds a reference to strong, so the text pushed into
               strong afterwards is seen through emph. *)
            strong ← Dom.push strong text;
            Dom.push emph strong
        | _, _ =>
            result ← match strong with
                     | Some strong => r ← Dom.push strong text; Return (Some r)
                     | None => Return None
                     end;
            result ← match emph with
                     | Some emph => r ← Dom.push emph text; Return (Some r)
                     | None => Return result
                     end;
            match result with
            | Some result => Return result
            | None => Return text
            end
        end
  end.

(** ** The recursive mapper *)

(** [node.data], whose fields the [switch] reads: a [TypeError] when the
    node has no [data]. *)
Definition data_of (node : Slate.node) : outcome (gmap string jsval) :=
  match Slate.data node with
  | Some d => Return d
  | None => Throw TypeError
  end.

(** An object literal [{$class: `${NS}.Name`, level: lv, nodes: []}]. *)
Definition heading (lv : string) : Dom.node :=
  Dom.Node (qualified NS "Heading") {[ "level" := JStr lv ]} (Some []).

(** The inner [switch (node.type)]: the cases in the order of the source,
    each compared with [===]; [None] is [result] left [null]. *)
Definition switch_type (node : Slate.node) (ty : string) : outcome (option Dom.node) :=
  if String.eqb ty "clause" then
    d ← data_of node;
    Return (Some (Dom.Node (qualified NS_CICERO "Clause")
                    (<["clauseid" := prop d "clauseid"]>
                       (<["src" := prop d "src"]>
                          {[ "clauseText" := prop d "clauseText" ]}))
                    (Some [])))
  else if String.eqb ty "variable" then
    d ← data_of node;
    Return (Some (Dom.Node (qualified NS_CICERO "Variable")
                    (<["id" := prop d "id"]> {[ "value" := prop d "value" ]})
                    (Some [])))
  else if String.eqb ty "computed" then
    d ← data_of node;
    Return (Some (Dom.Node (qualified NS_CICERO "ComputedVariable")
                    {[ "value" := prop d "value" ]} (Some [])))
  else if String.eqb ty "paragraph" then
    Return (Some (Dom.Node (qualified NS "Paragraph") ∅ (Some [])))
  else if String.eqb ty "quote" then
    Return (Some (Dom.Node (qualified NS "BlockQuote") ∅ None))
  else if String.eqb ty "horizontal_rule" then
    Return (Some (Dom.Node (qualified NS "ThematicBreak") ∅ None))
  else if String.eqb ty "heading_one" then Return (Some (heading "1"))
  else if String.eqb ty "heading_two" then Return (Some (heading "2"))
  else if String.eqb ty "heading_three" then Return (Some (heading "3"))
  else if String.eqb ty "heading_four" then Return (Some (heading "4"))
  else if String.eqb ty "heading_five" then Return (Some (heading "5"))
  else if String.eqb ty "heading_six" then Return (Some (heading "6"))
  else if String.eqb ty "block_quote" then
    Return (Some (Dom.Node (qualified NS "BlockQuote") ∅ (Some [])))
  else if String.eqb ty "code_block" then
    Return (Some (Dom.Node (qualified NS "CodeBlock") {[ "text" := Slate.text node ]} None))
  else if String.eqb ty "html_block" then
    Return (Some (Dom.Node (qualified NS "HtmlBlock") {[ "text" := Slate.text node ]} None))
  else if String.eqb ty "html_inline" then
    Return (Some (Dom.Node (qualified NS "HtmlInline") ∅ None))
  else if String.eqb ty "ol_list" || String.eqb ty "ul_list" then
    d ← data_of node;
    Return (Some (Dom.Node (qualified NS "List")
                    (<["type" := JStr (if String.eqb ty "ol_list" then "ordered" else "bullet")]>
                       (<["delimiter" := prop d "delimiter"]>
                          (<["start" := prop d "start"]>
                             {[ "tight" := prop d "tight" ]})))
                    (Some [])))
  else if String.eqb ty "list_item" then
    (* result = {$class: Item, nodes: []};
       result.nodes.push({$class: Paragraph, nodes: []}) *)
    r ← Dom.push (Dom.Node (qualified NS "Item") ∅ (Some []))
                 (Dom.Node (qualified NS "Paragraph") ∅ (Some []));
    Return (Some r)
  else if String.eqb ty "link" then
    d ← data_of node;
    Return (Some (Dom.Node (qualified NS "Link")
                    (<["destination" := prop d "href"]> {[ "title" := JStr EmptyString ]})
                    (Some [])))
  else Return None.

(** The outer [switch (node.object)] followed by [if(!result) throw]: the
    object the callback creates for one editor node, before its children
    are processed. *)
Definition create (node : Slate.node) : outcome Dom.node :=
  result ← match Slate.object node with
           | Some o =>
               if String.eqb o "text" then r ← handleText node; Return (Some r)
               else match Slate.type node with
                    | Some ty => switch_type node ty
                    | None => Return None
                    end
           | None =>
               match Slate.type node with
               | Some ty => switch_type node ty
               | None => Return None
               end
           end;
  match result with
  | Some result => Return result
  | None => Throw FailedToProcess
  end.

(** [if(!parent.nodes) throw new Error(...); parent.nodes.push(result)] *)
Definition attach (parent result : Dom.node) : outcome Dom.node :=
  match Dom.nodes parent with
  | None => Throw ParentNoChildren
  | Some l => Return (Dom.Node (Dom.class parent) (Dom.fields parent) (Some (l ++ [result])))
  end.

(** The body of the [forEach] callback up to the processing of the
    children: the finished object for one editor node.  The children are
    pushed into [result.nodes[0]] when it exists and into [result]
    otherwise; the source mutates that object in place, so the updated
    first child replaces the old one in [result.nodes].  The local [each]
    is the nested call of [_recursive]. *)
Fixpoint convert (node : Slate.node) : outcome Dom.node :=
  result ← create node;
  match Slate.nodes node, Dom.nodes result with
  | Some children, Some rnodes =>
      let each :=
        fix each (parent : Dom.node) (l : list Slate.node) {struct l} : outcome Dom.node :=
          match l with
          | [] => Return parent
          | n :: l' =>
              r ← convert n;
              parent ← attach parent r;
              each parent l'
          end in
      match rnodes with
      | first :: rest =>
          first ← each first children;
          Return (Dom.Node (Dom.class result) (Dom.fields result) (Some (first :: rest)))
      | [] => each result children
      end
  | _, _ => Return result
  end.

(** The callback of [nodes.forEach]. *)
Definition callback (parent : Dom.node) (node : Slate.node) : outcome Dom.node :=
  result ← convert node;
  attach parent result.

(** [_recursive(parent, nodes)]; the result is [parent] as the call leaves
    it. *)
Fixpoint _recursive (parent : Dom.node) (nodes : list Slate.node) : outcome Dom.node :=
  match nodes with
  | [] => Return parent
  | node :: nodes =>
      parent ← callback parent node;
      _recursive parent nodes
  end.

Definition slateToCiceroMarkDom (document : Slate.document) : outcome Dom.node :=
  let result :=
    Dom.Node "org.accordproject.commonmark.Document"
      {[ "xmlns" := JStr "http://commonmark.org/xml/1.0" ]} (Some []) in
  match Slate.document_nodes document with
  | Some nodes => _recursive result nodes
  | None => Throw TypeError
  end.

(** ** Sample editor nodes *)

(** [{object: 'text', text: t, marks: [{type: m}, ...]}] *)
Definition text_node (t : string) (ms : list string) : Slate.node :=
  Slate.Node (Some "text") None None None (JStr t) (Some (Slate.Mark <$> ms)).

(** [{object: 'block', type: ty, data: {}, nodes: [...]}] *)
Definition element (ty : string) (children : list Slate.node) : Slate.node :=
  Slate.Node (Some "block") (Some ty) (Some ∅) (Some children) JUndefined None.

(** ** Vocabulary of the properties of the mapper *)

(** The canonical shapes the properties name. *)
Definition Text_leaf (t : jsval) : Dom.node :=
  Dom.Node "org.accordproject.commonmark.Text" {[ "text" := t ]} None.
Definition Code_leaf (t : jsval) : Dom.node :=
  Dom.Node "org.accordproject.commonmark.Code" {[ "text" := t ]} None.
Definition Strong_of (children : list Dom.node) : Dom.node :=
  Dom.Node "org.accordproject.commonmark.Strong" ∅ (Some children).
Definition Emph_of (children : list Dom.node) : Dom.node :=
  Dom.Node "org.accordproject.commonmark.Emph" ∅ (Some children).
Definition Paragraph_of (children : list Dom.node) : Dom.node :=
  Dom.Node "org.accordproject.commonmark.Paragraph" ∅ (Some children).
Definition Item_of (children : list Dom.node) : Dom.node :=
  Dom.Node "org.accordproject.commonmark.Item" ∅ (Some children).
Definition Document_of (children : list Dom.node) : Dom.node :=
  Dom.Node "org.accordproject.commonmark.Document"
    {[ "xmlns" := JStr "http://commonmark.org/xml/1.0" ]} (Some children).

(** A mark of type [ty] occurs in the list. *)
Definition has_mark (ty : string) (ms : list Slate.mark) : Prop :=
  Slate.Mark ty ∈ ms.

(** The same text node with another list of marks. *)
Definition with_marks (node : Slate.node) (ms : list Slate.mark) : Slate.node :=
  Slate.Node (Slate.object node) (Slate.type node) (Slate.data node)
    (Slate.nodes node) (Slate.text node) (Some ms).

(** The strings of the [case] labels of the inner [switch]. *)
Definition recognized : list string :=
  [ "clause"; "variable"; "computed"; "paragraph"; "quote"; "horizontal_rule";
    "heading_one"; "heading_two"; "heading_three"; "heading_four";
    "heading_five"; "heading_six"; "block_quote"; "code_block"; "html_block";
    "html_inline"; "ol_list"; "ul_list"; "list_item"; "link" ].

(** A node that is not a text object and whose [type] is none of the
    [case] labels (or is absent). *)
Definition unhandled (node : Slate.node) : Prop :=
  Slate.object node ≠ Some "text" ∧
  ∀ ty, Slate.type node = Some ty → ty ∉ recognized.

(** The nodes [_recursive parent nodes] runs its callback on, were no
    exception thrown: the members of [nodes] and, below a member whose
    created object has a [nodes] array, the nodes reached through its own
    [nodes]. *)
Inductive dispatched : list Slate.node → Slate.node → Prop :=
| dispatched_here nodes n :
    n ∈ nodes → dispatched nodes n
| dispatched_below nodes m result rnodes children n :
    m ∈ nodes →
    create m = Return result →
    Dom.nodes result = Some rnodes →
    Slate.nodes m = Some children →
    dispatched children n →
    dispatched nodes n.

(** A code block with a child the mapper has no case for. *)
Definition sample_code_block : Slate.node :=
  Slate.Node (Some "block") (Some "code_block") None
    (Some [element "bogus" []]) (JStr "let x = 1") None.


(** ** Strings *)

(** A character of the class [[a-z]]. *)
Definition is_lower (c : ascii) : bool :=
  (97 <=? nat_of_ascii c)%nat && (nat_of_ascii c <=? 122)%nat.

(** The upper case of a letter of [[a-z]], the letter 32 code units
    below; any other character is returned as it is. *)
Definition upper_char (c : ascii) : ascii :=
  if is_lower c then ascii_of_nat (nat_of_ascii c - 32) else c.

(** [s.charAt(i)]: the empty string when [i] is out of range. *)
Definition charAt (i : nat) (s : string) : string := String.substring i 1 s.

(** [s.slice(i)] for [0 <= i]. *)
Definition slice (i : nat) (s : string) : string :=
  String.substring i (String.length s - i) s.

(** [s.endsWith(suffix)] *)
Definition endsWith (s suffix : string) : bool :=
  (String.length suffix <=? String.length s)%nat &&
  String.eqb (String.substring (String.length s - String.length suffix)
                (String.length suffix) s) suffix.

(** ** Objects of the stream-to-tree builder *)

(** A reference to an object of the heap. *)
Abbreviation ref := nat (only parsing).

(** [{$class, name, value}] *)
Record Attribute : Type :=
  { attribute_class : string; attribute_name : string; attribute_value : string }.

(** The object stored in [head.tag]. *)
Record TagInfo : Type :=
  { taginfo_class : string;
    tagName : string;
    attributeString : string;
    attributes : list Attribute;
    content : option string;
    closed : bool }.

(** The values a field of a node under construction can hold: a string (a
    hoisted attribute, the text), a number (a source location), the array
    of the children, the tag object. *)
Inductive value : Type :=
| VStr (s : string)
| VNum (n : Z)
| VArr (l : list ref)
| VTag (t : TagInfo).

(** An absent field, the empty string and zero are falsy; arrays and
    objects are truthy. *)
Definition truthy (v : option value) : bool :=
  match v with
  | None => false
  | Some (VStr s) => negb (String.eqb s EmptyString)
  | Some (VNum n) => negb (n =? 0)%Z
  | Some (VArr _) => true
  | Some (VTag _) => true
  end.

(** The objects the handlers create and mutate, and the stack of the
    references to the frames in progress, the top first.  A frame on the
    stack is the same object as the entry of its parent's [nodes] array,
    hence the heap. *)
Record state : Type :=
  { heap : list (gmap string value);
    stack : list ref }.

(** [const newNode = {...}]: a fresh object. *)
Definition alloc (o : gmap string value) (st : state) : ref * state :=
  (length (heap st), {| heap := heap st ++ [o]; stack := stack st |}).

(** Reading through a reference. *)
Definition deref (r : ref) (st : state) : outcome (gmap string value) :=
  match heap st !! r with
  | Some o => Return o
  | None => Throw TypeError
  end.

(** Writing through a reference. *)
Definition store (r : ref) (o : gmap string value) (st : state) : state :=
  {| heap := <[r := o]> (heap st); stack := stack st |}.

Module Stack.

(** Modelled from the spec: the class [Stack] required from [./Stack],
    which is not among the sources.  The builder's stack is "an
    array/vector used strictly LIFO"; a frame is "pushed on tag-open,
    popped on tag-close"; the result is "the remaining top-of-stack
    element".  A push links the new node under the current top by
    appending it to the top's children list, unless the caller asks for
    "no parent linkage" (the second argument [false], used for the
    root); the list is there because the open handler initialises it
    first.  A top whose [nodes] is falsy is a leaf and refuses the child
    with an error; a top whose [nodes] is truthy and not an array has no
    [push] to call, a TypeError. *)
Definition peek (st : state) : option ref := head (stack st).

Definition pop (st : state) : state :=
  {| heap := heap st; stack := tail (stack st) |}.

Definition push (obj : ref) (appendToHead : bool) (st : state) : outcome state :=
  let pushed := {| heap := heap st; stack := obj :: stack st |} in
  match appendToHead, peek st with
  | true, Some top =>
      o ← deref top st;
      match o !! "nodes" with
      | Some (VArr l) => Return (store top (<["nodes" := VArr (l ++ [obj])]> o) pushed)
      | nodes => if truthy nodes then Throw TypeError else Throw AddToLeaf
      end
  | _, _ => Return pushed
  end.

End Stack.

(** ** The external HTML parser *)

(** What [parseHtmlBlock] reads of the document the HTML parser returns:
    the child nodes of the document and, of the first one, its attributes
    (undefined on a node that is not an element), its tag name and its
    text content. *)
Record DomNode : Type :=
  { dom_attributes : option (list (string * string));
    dom_tagName : option string;
    dom_textContent : option string }.

Record DomDocument : Type := { childNodes : list DomNode }.

(** The object [parseHtmlBlock] returns. *)
Record HtmlTag : Type :=
  { tag : string;
    tag_attributes : list (string * string);
    tag_attributeString : string;
    tag_content : option string;
    tag_closed : bool }.

(** ** Plain objects with string values *)

(** The object [attributeObject] that [parseHtmlBlock] fills, as the list
    of its own properties in the order of their creation.  It is created
    by [{}], so it inherits from [Object.prototype]. *)

(** [object[name]] for a property of the object itself. *)
Fixpoint lookup_property (name : string) (object : list (string * string))
  : option string :=
  match object with
  | [] => None
  | (k, v) :: object => if String.eqb k name then Some v else lookup_property name object
  end.

(** The assignment for a name other than [__proto__]: an existing
    property keeps its place, a new one goes last. *)
Fixpoint update_property (name value : string) (object : list (string * string))
  : list (string * string) :=
  match object with
  | [] => [(name, value)]
  | (k, v) :: object =>
      if String.eqb k name then (k, value) :: object
      else (k, v) :: update_property name value object
  end.

(** [object[name] = value] for a string [value].  The name [__proto__]
    reaches the setter of [Object.prototype], which ignores a value that
    is not an object: no property is created. *)
Definition set_property (name value : string) (object : list (string * string))
  : list (string * string) :=
  if String.eqb name "__proto__" then object
  else update_property name value object.

(** The value of a decimal digit. *)
Definition digit (c : ascii) : option N :=
  let n := N_of_ascii c in
  if (48 <=? n)%N && (n <=? 57)%N then Some (n - 48)%N else None.

Fixpoint digits (acc : N) (s : string) : option N :=
  match s with
  | EmptyString => Some acc
  | String c s =>
      match digit c with
      | Some d => digits (acc * 10 + d)%N s
      | None => None
      end
  end.

(** An array index: the canonical decimal form (no leading zero) of an
    integer from 0 to 2^32 - 2. *)
Definition array_index (name : string) : option N :=
  match name with
  | EmptyString => None
  | String c rest =>
      if Ascii.eqb c "0" then
        if String.eqb rest EmptyString then Some 0%N else None
      else
        match digits 0 name with
        | Some n => if (n <=? 4294967294)%N then Some n else None
        | None => None
        end
  end.

Definition index_le (a b : string * string) : Prop :=
  (default 0 (array_index a.1) ≤ default 0 (array_index b.1))%N.

Global Instance index_le_dec (a b : string * string) : Decision (index_le a b) :=
  N.le_dec _ _.

(** [for (const name in object)] over the properties of the object
    itself: those whose name is an array index first, in ascending order
    of the index, then the others in the order of their creation.
    [Object.prototype] adds nothing to enumerate. *)
Definition for_in (object : list (string * string)) : list (string * string) :=
  merge_sort index_le (filter (λ p, is_Some (array_index p.1)) object)
  ++ filter (λ p, array_index p.1 = None) object.

(** [object.hasOwnProperty(name)]: the method is the one of
    [Object.prototype] unless the object has a property [hasOwnProperty]
    of its own, which holds a string here and cannot be called. *)
Definition hasOwnProperty (object : list (string * string)) (name : string)
  : outcome bool :=
  match lookup_property "hasOwnProperty" object with
  | Some _ => Throw TypeError
  | None => Return (bool_decide (is_Some (lookup_property name object)))
  end.

(** Events of the sax parser, with the positions the parser holds when it
    reports an open tag. *)
Record Position : Type :=
  { line : Z; column : Z; position : Z; startTagPosition : Z }.

Inductive event : Type :=
| OpenTag (name : string) (attributes : gmap string string) (pos : Position)
| Text (t : string)
| CloseTag (name : string).

(** The options given to the constructor; an absent option is [false]. *)
Record Options : Type :=
  { trimText : bool; enableSourceLocation : bool; noIndex : bool; tagInfo : bool }.

(** ** The tag classifier *)

(** [name.replace(/_([a-z])/g, function (g) { return g[1].toUpperCase(); })]:
    the matches are found from left to right and do not overlap; a match
    is an underscore and the letter of [[a-z]] after it, and is replaced
    by the upper case of that letter, which for these letters is
    [upper_char]. *)
Fixpoint replace_underscore_lower (name : string) : string :=
  match name with
  | EmptyString => EmptyString
  | String c rest =>
      match rest with
      | String d rest' =>
          if Ascii.eqb c "_" && is_lower d
          then String (upper_char d) (replace_underscore_lower rest')
          else String c (replace_underscore_lower rest)
      | EmptyString => String c EmptyString
      end
  end.

(** The double quote. *)
Definition dquote : string := String (ascii_of_nat 34) EmptyString.

Section CommonMarkTransformer.

(** The constant [COMMON_NS_PREFIX] required from [./Models], which is
    not among the sources: the prefix of every class name. *)
Variable COMMON_NS_PREFIX : string.

(** The built-ins [String.prototype.trim], [toUpperCase] and
    [toLowerCase], which consult the Unicode tables: they are taken as
    they are. *)
Variable trim : string → string.
Variable toUpperCase : string → string.
Variable toLowerCase : string → string.

(** [(new DOMParser()).parseFromString(string, 'text/html')] of the
    [xmldom] package: it may throw, and it may return no document. *)
Variable parseFromString : option value → outcome (option DomDocument).

(** [this.options], undefined when the constructor got none. *)
Variable options : option Options.

(** [that.options && that.options.flag] *)
Definition option_set (flag : Options → bool) : bool :=
  match options with
  | Some o => flag o
  | None => false
  end.

(** [string.charAt(0).toUpperCase() + string.slice(1)] *)
Definition capitalizeFirstLetter (string : String.string) : String.string :=
  toUpperCase (charAt 0 string) +:+ slice 1 string.

Definition toClass (name : string) : string :=
  let camelCased := replace_underscore_lower name in
  COMMON_NS_PREFIX +:+ capitalizeFirstLetter camelCased.

(** [json.$class === (COMMON_NS_PREFIX + name)] *)
Definition class_is (json : gmap string value) (name : string) : bool :=
  match json !! "$class" with
  | Some (VStr c) => String.eqb c (COMMON_NS_PREFIX +:+ name)
  | _ => false
  end.

Definition isLeafNode (json : gmap string value) : bool :=
  class_is json "Text" || class_is json "CodeBlock" || class_is json "HtmlInline"
  || class_is json "HtmlBlock" || class_is json "Code".

Definition isHtmlNode (json : gmap string value) : bool :=
  class_is json "HtmlInline" || class_is json "HtmlBlock".

Definition isCodeBlockNode (json : gmap string value) : bool :=
  class_is json "CodeBlock".

(** The body of the [try] block of [parseHtmlBlock]. *)
Definition parseHtmlBlock_try (string : option value) : outcome HtmlTag :=
  doc ← parseFromString string;
  (* doc.childNodes[0] *)
  doc ← match doc with Some doc => Return doc | None => Throw TypeError end;
  let item := head (childNodes doc) in
  (* item.attributes *)
  item ← match item with Some item => Return item | None => Throw TypeError end;
  let attributes := dom_attributes item in
  (* attributes.length *)
  attributes ← match attributes with Some a => Return a | None => Throw TypeError end;
  let '(attributeString, attributeObject) :=
    fold_left
      (λ '(attributeString, attributeObject) '(name, value),
         (attributeString +:+ name +:+ " = " +:+ dquote +:+ value +:+ dquote +:+ " ",
          set_property name value attributeObject))
      attributes (EmptyString, []) in
  (* item.tagName.toLowerCase() *)
  tagName ← match dom_tagName item with Some n => Return n | None => Throw TypeError end;
  (* string.endsWith('/>') *)
  closed ← match string with
           | Some (VStr s) => Return (endsWith s "/>")
           | _ => Throw TypeError
           end;
  Return {| tag := toLowerCase tagName;
            tag_attributes := attributeObject;
            tag_attributeString := attributeString;
            tag_content := dom_textContent item;
            tag_closed := closed |}.

(** [null] is [None]. *)
Definition parseHtmlBlock (string : option value) : outcome (option HtmlTag) :=
  try_catch (tag ← parseHtmlBlock_try string; Return (Some tag))
    (λ err, Return None).

(** ** The sax handlers of [fromMarkdown] *)

(** [{'$class': ..., 'name': attName, 'value': attValue}] *)
Definition make_attribute (attName attValue : string) : Attribute :=
  {| attribute_class := COMMON_NS_PREFIX +:+ "Attribute";
     attribute_name := attName;
     attribute_value := attValue |}.

(** The loop [for (const attName in tagInfo.attributes)] with its test
    [tagInfo.attributes.hasOwnProperty(attName)] and the push of
    [tagInfo.attributes[attName]]. *)
Definition tag_attributes_loop (object : list (string * string))
  : outcome (list Attribute) :=
  fold_left
    (λ attributes '(attName, _),
       attributes ← attributes;
       own ← hasOwnProperty object attName;
       match own, lookup_property attName object with
       | true, Some attValue => Return (attributes ++ [make_attribute attName attValue])
       | _, _ => Return attributes
       end)
    (for_in object) (Return []).

(** [head.tag = {}] and the assignments that fill it. *)
Definition make_tag (tagInfo : HtmlTag) : outcome TagInfo :=
  attributes ← tag_attributes_loop (tag_attributes tagInfo);
  Return {| taginfo_class := COMMON_NS_PREFIX +:+ "TagInfo";
            tagName := tag tagInfo;
            attributeString := tag_attributeString tagInfo;
            attributes := attributes;
            content := tag_content tagInfo;
            closed := tag_closed tagInfo |}.

Definition ontext (t : string) (st : state) : outcome state :=
  let t := if option_set trimText then trim t else t in
  match Stack.peek st with
  | Some head =>
      if (0 <? String.length t)%nat then
        json ← deref head st;
        let json := if isLeafNode json then <["text" := VStr t]> json else json in
        json ←
          (if isHtmlNode json || isCodeBlockNode json then
             let maybeHtmlText :=
               if isHtmlNode json then json !! "text" else json !! "info" in
             tagInfo ← (if option_set tagInfo then parseHtmlBlock maybeHtmlText
                        else Return None);
             match tagInfo with
             | Some tagInfo =>
                 tag ← make_tag tagInfo;
                 Return (<["tag" := VTag tag]> json)
             | None => Return json
             end
           else Return json);
        Return (store head json st)
      else Return st
  | None => Return st
  end.

(** [Object.keys(node.attributes).forEach(key => { newNode[key] =
    node.attributes[key]; })] *)
Definition hoist (attributes : gmap string string) (newNode : gmap string value)
  : gmap string value :=
  map_fold (λ key v newNode, <[key := VStr v]> newNode) newNode attributes.

Definition onopentag (name : string) (attributes : gmap string string)
    (pos : Position) (st : state) : outcome state :=
  let newNode : gmap string value := {[ "$class" := VStr (toClass name) ]} in
  let newNode :=
    if option_set enableSourceLocation then
      <["startTagPosition" := VNum (startTagPosition pos)]>
        (<["position" := VNum (position pos)]>
           (<["column" := VNum (column pos)]>
              (<["line" := VNum (line pos)]> newNode)))
    else newNode in
  let newNode := hoist attributes newNode in
  match Stack.peek st with
  | Some head =>
      json ← deref head st;
      let st := if truthy (json !! "nodes") then st
                else store head (<["nodes" := VArr []]> json) st in
      let '(newNode, st) := alloc newNode st in
      Stack.push newNode true st
  | None =>
      let '(newNode, st) := alloc newNode st in
      Stack.push newNode false st
  end.

Definition onclosetag (name : string) (st : state) : outcome state :=
  if negb (String.eqb name "document") then Return (Stack.pop st)
  else Return st.

Definition handle (e : event) (st : state) : outcome state :=
  match e with
  | OpenTag name attributes pos => onopentag name attributes pos st
  | Text t => ontext t st
  | CloseTag name => onclosetag name st
  end.

(** [parser.write(xml).close()]: the handlers run on the events in
    order; an exception leaves the run. *)
Fixpoint run (events : list event) (st : state) : outcome state :=
  match events with
  | [] => Return st
  | e :: events => st ← handle e st; run events st
  end.

(** [new Stack()] *)
Definition empty_state : state := {| heap := []; stack := [] |}.

(** [fromMarkdown(markdown, 'json')] from the events the sax parser
    reports for the XML rendering of [markdown]: the reference
    [stack.peek()] returned at the end, with the heap it points into. *)
Definition fromMarkdown (events : list event) : outcome (option ref * list (gmap string value)) :=
  st ← run events empty_state;
  let json := Stack.peek st in
  Return (json, heap st).

End CommonMarkTransformer.

(** ** Vocabulary of the properties of the builder *)

(** The object an open tag creates. *)
Definition newNode_of (COMMON_NS_PREFIX : string) (toUpperCase : string → string)
    (options : option Options) (name : string) (attributes : gmap string string) (pos : Position)
  : gmap string value :=
  hoist attributes
    (if option_set options enableSourceLocation then
       <["startTagPosition" := VNum (startTagPosition pos)]>
         (<["position" := VNum (position pos)]>
            (<["column" := VNum (column pos)]>
               (<["line" := VNum (line pos)]>
                  {[ "$class" := VStr (toClass COMMON_NS_PREFIX toUpperCase name) ]})))
     else {[ "$class" := VStr (toClass COMMON_NS_PREFIX toUpperCase name) ]}).

(** The reference of the first object a conversion allocates: the node of
    the first open tag. *)
Definition root : ref := 0.

(** Every open has a matching close, and the element opened first is
    closed by the last event: [opened] are the names of the elements open
    so far, the innermost first. *)
Fixpoint nested (opened : list string) (events : list event) : bool :=
  match events, opened with
  | OpenTag name _ _ :: events, _ :: _ => nested (name :: opened) events
  | Text _ :: events, _ :: _ => nested opened events
  | CloseTag name :: events, [top] =>
      String.eqb name top && match events with [] => true | _ => false end
  | CloseTag name :: events, top :: opened =>
      String.eqb name top && nested opened events
  | _, _ => false
  end.

(** A well-formed stream: the document open is first, its close is last,
    and the events between them are properly nested. *)
Definition well_formed (events : list event) : bool :=
  match events with
  | OpenTag name _ _ :: events => String.eqb name "document" && nested [name] events
  | _ => false
  end.

Definition opens_document (e : event) : bool :=
  match e with
  | OpenTag name _ _ => String.eqb name "document"
  | _ => false
  end.

(** No element below the root is named [document]. *)
Definition root_only_document (events : list event) : bool :=
  forallb (λ e, negb (opens_document e)) (tail events).

(** An attribute named [nodes], when an open tag has one, is empty. *)
Definition no_nodes_attribute (events : list event) : bool :=
  forallb (λ e, match e with
                | OpenTag _ attributes _ =>
                    match attributes !! "nodes" with
                    | Some v => String.eqb v EmptyString
                    | None => true
                    end
                | _ => true
                end) events.

(** The camel-casing as the specification words it: every character that
    follows an underscore in upper case, the underscores removed.
    [after] tells that the previous character was an underscore. *)
Fixpoint camel_case_spec (toUpperCase : string → string) (after : bool)
    (name : string) : string :=
  match name with
  | EmptyString => EmptyString
  | String c rest =>
      if Ascii.eqb c "_" then camel_case_spec toUpperCase true rest
      else (if after then toUpperCase (String c EmptyString) else String c EmptyString)
           +:+ camel_case_spec toUpperCase false rest
  end.

(** The capitalisation as the specification words it: the first letter
    in upper case, the rest as it is. *)
Definition capitalize_spec (toUpperCase : string → string) (s : string) : string :=
  match s with
  | EmptyString => EmptyString
  | String c rest => toUpperCase (String c EmptyString) +:+ rest
  end.

(** The classification as the specification words it. *)
Definition toClass_spec (toUpperCase : string → string) (prefix name : string)
  : string :=
  prefix +:+ capitalize_spec toUpperCase (camel_case_spec toUpperCase false name).

(** Every underscore of the name is immediately followed by a lower-case
    letter. *)
Fixpoint underscores_before_lower (name : string) : bool :=
  match name with
  | EmptyString => true
  | String c rest =>
      (if Ascii.eqb c "_" then
         match rest with
         | String d _ => is_lower d
         | EmptyString => false
         end
       else true)
      && underscores_before_lower rest
  end.

(** ** Stand-ins for the parameters *)

(** Functions for the examples.  [sample_trim] removes the white space
    and the line terminators among the code units below 256 (9 to 13, 32
    and 160) from both ends, as [String.prototype.trim] does;
    [sample_toUpperCase] and [sample_toLowerCase] agree with the
    built-ins on the strings of ASCII characters. *)
Definition is_upper (c : ascii) : bool :=
  (65 <=? nat_of_ascii c)%nat && (nat_of_ascii c <=? 90)%nat.

Definition lower_char (c : ascii) : ascii :=
  if is_upper c then ascii_of_nat (nat_of_ascii c + 32) else c.

Fixpoint map_string (f : ascii → ascii) (s : string) : string :=
  match s with
  | EmptyString => EmptyString
  | String c s => String (f c) (map_string f s)
  end.

Definition sample_toUpperCase : string → string := map_string upper_char.
Definition sample_toLowerCase : string → string := map_string lower_char.

Definition is_space (c : ascii) : bool :=
  let n := nat_of_ascii c in
  ((9 <=? n)%nat && (n <=? 13)%nat) || (n =? 32)%nat || (n =? 160)%nat.

Fixpoint trimStart (s : string) : string :=
  match s with
  | EmptyString => EmptyString
  | String c s' => if is_space c then trimStart s' else s
  end.

Fixpoint trimEnd (s : string) : string :=
  match s with
  | EmptyString => EmptyString
  | String c s' =>
      match trimEnd s' with
      | EmptyString => if is_space c then EmptyString else String c EmptyString
      | kept => String c kept
      end
  end.

Definition sample_trim (s : string) : string := trimEnd (trimStart s).

(** An element with the given tag name, attributes and text content. *)
Definition dom_element (name : string) (attributes : list (string * string))
    (text : string) : DomNode :=
  {| dom_attributes := Some attributes;
     dom_tagName := Some name;
     dom_textContent := Some text |}.

(** A comment node: it has no attributes and no tag name. *)
Definition dom_comment (text : string) : DomNode :=
  {| dom_attributes := None; dom_tagName := None; dom_textContent := Some text |}.

(** A stand-in for the HTML parser, with the documents of five
    fragments: a self-closing element, an element with two attributes, an
    element with an attribute named [hasOwnProperty], a comment, and the
    empty string, for which the parser has no document.  Any other input
    gives a document without children. *)
Definition sample_parser (string : option value) : outcome (option DomDocument) :=
  match string with
  | Some (VStr s) =>
      if String.eqb s "<br/>" then
        Return (Some {| childNodes := [dom_element "br" [] EmptyString] |})
      else if String.eqb s "<a href='u' id='i'>x</a>" then
        Return (Some {| childNodes :=
                          [dom_element "a" [("href", "u"); ("id", "i")] "x"] |})
      else if String.eqb s "<a hasOwnProperty='x'>" then
        Return (Some {| childNodes :=
                          [dom_element "a" [("hasOwnProperty", "x")] EmptyString] |})
      else if String.eqb s "<!-- c -->" then
        Return (Some {| childNodes := [dom_comment " c "] |})
      else if String.eqb s EmptyString then Return None
      else Return (Some {| childNodes := [] |})
  | _ => Throw ParseError
  end.

(** The piece of [attributeString] one attribute adds:
    [`${name} = "${value}" `]. *)
Definition format_attribute (attribute : string * string) : string :=
  attribute.1 +:+ " = " +:+ dquote +:+ attribute.2 +:+ dquote +:+ " ".

Fixpoint concat_strings (l : list string) : string :=
  match l with
  | [] => EmptyString
  | s :: l => s +:+ concat_strings l
  end.

(** The attribute object after the assignments of the loop of
    [parseHtmlBlock]. *)
Definition set_properties (attributes : list (string * string))
  : list (string * string) :=
  fold_left (λ object '(name, value), set_property name value object) attributes [].

(** Names in underscore-delimited lower case: words of letters [a-z]
    joined by single underscores. *)
Fixpoint all_lower (w : string) : bool :=
  match w with
  | EmptyString => true
  | String c w => is_lower c && all_lower w
  end.

Definition lower_word (w : string) : bool :=
  match w with
  | EmptyString => false
  | String _ _ => all_lower w
  end.

Definition snake (words : list string) : string :=
  match words with
  | [] => EmptyString
  | w :: words => w +:+ concat_strings ((λ w, "_" +:+ w) <$> words)
  end.

(** A word with its first letter in upper case. *)
Definition capitalise_word (w : string) : string :=
  match w with
  | EmptyString => EmptyString
  | String c w => String (upper_char c) w
  end.

(** The tag object the HTML inspector reads from [input] has a property
    [hasOwnProperty] of its own. *)
Definition shadows_hasOwnProperty (toLowerCase : string → string)
    (parseFromString : option value → outcome (option DomDocument))
    (input : option value) : bool :=
  match parseHtmlBlock toLowerCase parseFromString input with
  | Return (Some tagInfo) =>
      bool_decide (is_Some (lookup_property "hasOwnProperty" (tag_attributes tagInfo)))
  | _ => false
  end.

(** The text of a text event as the handler uses it. *)
Definition trimmed (trim : string → string) (options : option Options) (t : string)
  : string :=
  if option_set options trimText then trim t else t.

(** A text event can hand [input] to the HTML inspector without a call
    of [hasOwnProperty] on an object that shadows it: the option
    [tagInfo] is off, or the tag object read from [input] has no property
    of that name. *)
Definition input_safe (toLowerCase : string → string)
    (parseFromString : option value → outcome (option DomDocument))
    (options : option Options) (input : option value) : bool :=
  negb (option_set options tagInfo)
  || negb (shadows_hasOwnProperty toLowerCase parseFromString input).

(** The inputs of the HTML inspector are the text of a text event, for
    the HTML nodes, and the attribute [info] of an open tag, for the code
    blocks. *)
Definition event_safe (trim toLowerCase : string → string)
    (parseFromString : option value → outcome (option DomDocument))
    (options : option Options) (e : event) : bool :=
  match e with
  | OpenTag _ attributes _ =>
      input_safe toLowerCase parseFromString options (VStr <$> attributes !! "info")
  | Text t =>
      input_safe toLowerCase parseFromString options
        (Some (VStr (trimmed trim options t)))
  | CloseTag _ => true
  end.

Definition tags_safe (trim toLowerCase : string → string)
    (parseFromString : option value → outcome (option DomDocument))
    (options : option Options) (events : list event) : bool :=
  forallb (event_safe trim toLowerCase parseFromString options) events.

(** The [nodes] field of a frame, when it is truthy, is an array. *)
Definition nodes_ok (json : gmap string value) : Prop :=
  truthy (json !! "nodes") = true → ∃ l, json !! "nodes" = Some (VArr l).

(** Every frame of the stack is an object of the heap whose [nodes] field
    can take a child. *)
Definition frames_ok (st : state) : Prop :=
  Forall (λ r, ∃ json, heap st !! r = Some json ∧ nodes_ok json) (stack st).

(** Every frame of the stack is an object of the heap whose [info] field
    is safe to hand to the HTML inspector. *)
Definition frames_safe (toLowerCase : string → string)
    (parseFromString : option value → outcome (option DomDocument))
    (options : option Options) (st : state) : Prop :=
  Forall (λ r, ∃ json, heap st !! r = Some json ∧
                       input_safe toLowerCase parseFromString options (json !! "info") = true)
         (stack st).

(** ** Sample streams and states *)

Definition origin : Position :=
  {| line := 0; column := 0; position := 0; startTagPosition := 0 |}.

(** The events of
    [<document><paragraph><text>hi</text></paragraph></document>]. *)
Definition sample_events : list event :=
  [ OpenTag "document" {[ "xmlns" := "http://commonmark.org/xml/1.0" ]} origin;
    OpenTag "paragraph" ∅ origin;
    OpenTag "text" ∅ origin;
    Text "hi";
    CloseTag "text";
    CloseTag "paragraph";
    CloseTag "document" ].

(** The events of [<document><document></document></document>]. *)
Definition nested_document_events : list event :=
  [ OpenTag "document" ∅ origin;
    OpenTag "document" ∅ origin;
    CloseTag "document";
    CloseTag "document" ].

(** The events of [<document nodes="x"><paragraph></paragraph></document>]. *)
Definition nodes_attribute_events : list event :=
  [ OpenTag "document" {[ "nodes" := "x" ]} origin;
    OpenTag "paragraph" ∅ origin;
    CloseTag "paragraph";
    CloseTag "document" ].

(** The events of
    [<document><html_block>&lt;a hasOwnProperty='x'&gt;</html_block></document>]. *)
Definition hasOwnProperty_events : list event :=
  [ OpenTag "document" ∅ origin;
    OpenTag "html_block" ∅ origin;
    Text "<a hasOwnProperty='x'>";
    CloseTag "html_block";
    CloseTag "document" ].

(** The events of
    [<document><html_block>&lt;a href='u' id='i'&gt;x&lt;/a&gt;</html_block></document>]. *)
Definition html_events : list event :=
  [ OpenTag "document" ∅ origin;
    OpenTag "html_block" ∅ origin;
    Text "<a href='u' id='i'>x</a>";
    CloseTag "html_block";
    CloseTag "document" ].

(** Options with only [tagInfo] set. *)
Definition tagInfo_options : option Options :=
  Some {| trimText := false; enableSourceLocation := false; noIndex := false;
          tagInfo := true |}.



(** An HtmlBlock node just opened, alone on the stack. *)
Definition html_frame : gmap string value :=
  {[ "$class" := VStr "org.accordproject.commonmark.HtmlBlock" ]}.

Definition html_frame_state : state :=
  {| heap := [html_frame]; stack := [0] |}.

(** The fields the handlers assign to a node after its creation. *)
Definition assigned_later (k : string) : Prop :=
  k = "nodes" ∨ k = "text" ∨ k = "tag".

(** [st'] holds every object of [st], changed at most in the fields
    assigned after creation. *)
Definition evolves (st st' : state) : Prop :=
  ∀ r json,
    heap st !! r = Some json →
    ∃ json', heap st' !! r = Some json' ∧
             ∀ k, ¬ assigned_later k → json' !! k = json !! k.

(** ** Vocabulary of the further properties of the mapper *)

(** The created object with its children filled in. *)
Definition with_children (result : Dom.node) (children : list Dom.node) : Dom.node :=
  Dom.Node (Dom.class result) (Dom.fields result) (Some children).

(** The editor types of the headings with the level each one stands for. *)
Definition heading_types : list (string * string) :=
  [ ("heading_one", "1"); ("heading_two", "2"); ("heading_three", "3");
    ("heading_four", "4"); ("heading_five", "5"); ("heading_six", "6") ].

(** The [case] labels whose object literal reads [node.data]. *)
Definition data_types : list string :=
  [ "clause"; "variable"; "computed"; "ol_list"; "ul_list"; "link" ].

(** The [case] labels whose object literal has no [nodes] array. *)
Definition leaf_types : list string :=
  [ "quote"; "horizontal_rule"; "code_block"; "html_block"; "html_inline" ].

(** The [text] fields of the nodes without a [nodes] array, from left to
    right. *)
Fixpoint leaf_texts (n : Dom.node) : list jsval :=
  match n with
  | Dom.Node _ fields None => [prop fields "text"]
  | Dom.Node _ _ (Some children) => flat_map leaf_texts children
  end.

(** An editor tree the mapper has a case for at every node: a text object
    has its marks and no children of its own; any other node has one of
    the recognised types, its [data] when the case reads it, and children
    of the same kind. *)
Fixpoint convertible (node : Slate.node) : bool :=
  match node with
  | Slate.Node object type data nodes _ marks =>
      if bool_decide (object = Some "text") then
        bool_decide (is_Some marks) && bool_decide (default [] nodes = [])
      else
        match type with
        | Some ty =>
            bool_decide (ty ∈ recognized)
            && (bool_decide (ty ∉ data_types) || bool_decide (is_Some data))
            && match nodes with
               | Some children => forallb convertible children
               | None => true
               end
        | None => false
        end
  end.

(** Sample elements with a data bag. *)
Definition sample_list : Slate.node :=
  Slate.Node (Some "block") (Some "ul_list") (Some {[ "tight" := JBool true ]})
    (Some [element "list_item" []]) JUndefined None.

Definition sample_link : Slate.node :=
  Slate.Node (Some "inline") (Some "link")
    (Some (<["href" := JStr "http://a.b"]> {[ "title" := JStr "T" ]}))
    (Some [text_node "x" []]) JUndefined None.

Definition sample_variable : Slate.node :=
  Slate.Node (Some "inline") (Some "variable")
    (Some (<["id" := JStr "rate"]> {[ "value" := JStr "2.5" ]}))
    (Some [text_node "2.5" []]) JUndefined None.

(** A link without a data bag. *)
Definition sample_link_without_data : Slate.node :=
  Slate.Node (Some "inline") (Some "link") None (Some []) JUndefined None.

(** ** Vocabulary of the further properties of the builder *)

(** A stand-in for the HTML parser that returns the element
    [<A href="u" id="i">x</A>] whatever it is given. *)
Definition sample_parser_attributes (string : option value)
  : outcome (option DomDocument) :=
  Return (Some {| childNodes :=
                    [{| dom_attributes := Some [("href", "u"); ("id", "i")];
                        dom_tagName := Some "A";
                        dom_textContent := Some "x" |}] |}).

(** The name has a match of [/_([a-z])/]: an underscore immediately
    followed by a lower-case letter. *)
Fixpoint has_match (name : string) : bool :=
  match name with
  | EmptyString => false
  | String c rest =>
      match rest with
      | String d _ => (Ascii.eqb c "_" && is_lower d) || has_match rest
      | EmptyString => false
      end
  end.

(** The children a frame has so far: the empty list when its [nodes] field
    is not an array. *)
Definition children_of (json : gmap string value) : list ref :=
  match json !! "nodes" with
  | Some (VArr l) => l
  | _ => []
  end.

(** The number of open tags of a stream. *)
Fixpoint count_opens (events : list event) : nat :=
  match events with
  | [] => 0
  | OpenTag _ _ _ :: events => S (count_opens events)
  | _ :: events => count_opens events
  end.

(** Every close matches the innermost open element and nothing stays
    open: [opened] are the names of the elements open so far. *)
Fixpoint balanced (opened : list string) (events : list event) : bool :=
  match events with
  | [] => match opened with [] => true | _ => false end
  | OpenTag name _ _ :: events => balanced (name :: opened) events
  | Text _ :: events => balanced opened events
  | CloseTag name :: events =>
      match opened with
      | top :: opened => String.eqb name top && balanced opened events
      | [] => false
      end
  end.

(** Options with only [enableSourceLocation] set. *)
Definition location_options : option Options :=
  Some {| trimText := false; enableSourceLocation := true; noIndex := false;
          tagInfo := false |}.

(** A Paragraph node just opened, alone on the stack. *)
Definition paragraph_frame : gmap string value :=
  {[ "$class" := VStr "org.accordproject.commonmark.Paragraph" ]}.

Definition paragraph_frame_state : state :=
  {| heap := [paragraph_frame]; stack := [0] |}.

(** The events of [<paragraph><text>hi</text><softbreak/></paragraph>]. *)
Definition fragment_events : list event :=
  [ OpenTag "paragraph" ∅ origin;
    OpenTag "text" ∅ origin;
    Text "hi";
    CloseTag "text";
    OpenTag "softbreak" ∅ origin;
    CloseTag "softbreak";
    CloseTag "paragraph" ].
(** ** Equations of the mapper *)

(** The processing of a list of children inside [convert] is
    [_recursive]. *)
Lemma convert_unfold (node : Slate.node) :
  convert node =
    (result ← create node;
     match Slate.nodes node, Dom.nodes result with
     | Some children, Some rnodes =>
         match rnodes with
         | first :: rest =>
             first ← _recursive first children;
             Return (Dom.Node (Dom.class result) (Dom.fields result) (Some (first :: rest)))
         | [] => _recursive result children
         end
     | _, _ => Return result
     end).
Proof.
  destruct node as [o t d ns tx ms]. cbn [convert].
  destruct (create _) as [result|e]; [|reflexivity].
  cbn [mbind outcome_bind bind Slate.nodes].
  destruct ns as [children|]; [|reflexivity].
  destruct (Dom.nodes result) as [rnodes|]; [|reflexivity].
  assert (Heach : ∀ l parent,
             (fix each (parent : Dom.node) (l : list Slate.node) {struct l} :=
                match l with
                | [] => Return parent
                | n :: l' => r ← convert n; parent ← attach parent r; each parent l'
                end) parent l = _recursive parent l).
  { induction l as [|n l IH]; intros parent; [reflexivity|].
    cbn [_recursive]. unfold callback.
    destruct (convert n) as [r|e]; [|reflexivity].
    cbn [mbind outcome_bind bind].
    destruct (attach parent r) as [p|e]; [|reflexivity].
    cbn [mbind outcome_bind bind]. apply IH. }
  destruct rnodes as [|first rest]; rewrite Heach; reflexivity.
Qed.

(** The scenario of the specification: a paragraph holding the bold text
    [hi]. *)
Example scenario_bold_paragraph :
  slateToCiceroMarkDom
    (Slate.Document
       (Some [Slate.Node None (Some "paragraph") None
                (Some [Slate.Node (Some "text") None None None (JStr "hi")
                         (Some [Slate.Mark "bold"])])
                JUndefined None]))
  = Return
      (Dom.Node "org.accordproject.commonmark.Document"
         {[ "xmlns" := JStr "http://commonmark.org/xml/1.0" ]}
         (Some [Dom.Node "org.accordproject.commonmark.Paragraph" ∅
                  (Some [Dom.Node "org.accordproject.commonmark.Strong" ∅
                           (Some [Dom.Node "org.accordproject.commonmark.Text"
                                    {[ "text" := JStr "hi" ]} None])])])).
Proof. vm_compute. reflexivity. Qed.

(** ** The mark composer *)

Lemma some_mark_spec (ty : string) (ms : list Slate.mark) :
  some_mark ty ms = true ↔ has_mark ty ms.
Proof.
  unfold some_mark, has_mark. rewrite existsb_exists. split.
  - intros ([ty'] & Hin & Heq). cbn in Heq.
    apply String.eqb_eq in Heq as ->. by apply list_elem_of_In.
  - intros Hin. exists (Slate.Mark ty). split; [by apply list_elem_of_In|].
    cbn. apply String.eqb_refl.
Qed.

Lemma some_mark_false (ty : string) (ms : list Slate.mark) :
  some_mark ty ms = false ↔ ¬ has_mark ty ms.
Proof.
  rewrite <- some_mark_spec. destruct (some_mark ty ms); split; congruence.
Qed.

(** [handleText] as a function of the three tests. *)
Lemma handleText_cases (node : Slate.node) (ms : list Slate.mark) :
  Slate.marks node = Some ms →
  handleText node =
    Return (if some_mark "code" ms then Code_leaf (Slate.text node)
            else match some_mark "bold" ms, some_mark "italic" ms with
                 | true, true => Emph_of [Strong_of [Text_leaf (Slate.text node)]]
                 | true, false => Strong_of [Text_leaf (Slate.text node)]
                 | false, true => Emph_of [Text_leaf (Slate.text node)]
                 | false, false => Text_leaf (Slate.text node)
                 end).
Proof.
  intros Hms. unfold handleText. rewrite Hms.
  destruct (some_mark "code" ms); [reflexivity|].
  destruct (some_mark "bold" ms), (some_mark "italic" ms); reflexivity.
Qed.

(** C6. A text node without a code mark: bold and italic give Emph around
    Strong around the Text leaf, bold alone gives Strong around the Text
    leaf, italic alone gives Emph around the Text leaf, and neither gives
    the bare Text leaf with the node's raw text. *)
Theorem handleText_emphasis (node : Slate.node) (ms : list Slate.mark) :
  Slate.marks node = Some ms →
  ¬ has_mark "code" ms →
  (has_mark "bold" ms → has_mark "italic" ms →
   handleText node = Return (Emph_of [Strong_of [Text_leaf (Slate.text node)]])) ∧
  (has_mark "bold" ms → ¬ has_mark "italic" ms →
   handleText node = Return (Strong_of [Text_leaf (Slate.text node)])) ∧
  (¬ has_mark "bold" ms → has_mark "italic" ms →
   handleText node = Return (Emph_of [Text_leaf (Slate.text node)])) ∧
  (¬ has_mark "bold" ms → ¬ has_mark "italic" ms →
   handleText node = Return (Text_leaf (Slate.text node))).
Proof.
  intros Hms Hcode. rewrite (handleText_cases node ms Hms).
  apply some_mark_false in Hcode as ->.
  repeat split; intros Hb Hi;
    repeat match goal with
      | H : has_mark _ _ |- _ => apply some_mark_spec in H; rewrite H
      | H : ¬ has_mark _ _ |- _ => apply some_mark_false in H; rewrite H
      end; reflexivity.
Qed.

Lemma handleText_emphasis_witness :
  handleText (text_node "hi" ["italic"; "bold"])
  = Return (Emph_of [Strong_of [Text_leaf (JStr "hi")]]).
Proof.
  refine (proj1 (handleText_emphasis (text_node "hi" ["italic"; "bold"])
                   (Slate.Mark <$> ["italic"; "bold"]) eq_refl _) _ _).
  - unfold has_mark. rewrite list_elem_of_In. cbn. intros [H|[H|[]]]; discriminate H.
  - unfold has_mark. apply list_elem_of_In. cbn. right. left. reflexivity.
  - unfold has_mark. apply list_elem_of_In. cbn. left. reflexivity.
Defined.

(** C7. A text node with a code mark yields the bare Code leaf with the
    node's raw text, whatever other marks it carries. *)
Theorem handleText_code (node : Slate.node) (ms : list Slate.mark) :
  Slate.marks node = Some ms →
  has_mark "code" ms →
  handleText node = Return (Code_leaf (Slate.text node)).
Proof.
  intros Hms Hcode. rewrite (handleText_cases node ms Hms).
  apply some_mark_spec in Hcode as ->. reflexivity.
Qed.

Lemma handleText_code_witness :
  handleText (text_node "x" ["bold"; "code"; "italic"]) = Return (Code_leaf (JStr "x")).
Proof.
  apply (handleText_code (text_node "x" ["bold"; "code"; "italic"])
           (Slate.Mark <$> ["bold"; "code"; "italic"]) eq_refl).
  unfold has_mark. apply list_elem_of_In. cbn. right. left. reflexivity.
Defined.

(** The result is a function of the presence of the three mark types. *)
Lemma handleText_presence (node : Slate.node) (ms ms' : list Slate.mark) :
  (∀ ty, ty ∈ ["bold"; "italic"; "code"] → has_mark ty ms ↔ has_mark ty ms') →
  handleText (with_marks node ms) = handleText (with_marks node ms').
Proof.
  intros Hsame.
  rewrite (handleText_cases (with_marks node ms) ms eq_refl),
    (handleText_cases (with_marks node ms') ms' eq_refl).
  assert (Heq : ∀ ty, ty ∈ ["bold"; "italic"; "code"] →
                      some_mark ty ms = some_mark ty ms').
  { intros ty Hty. apply Bool.eq_iff_eq_true.
    rewrite !some_mark_spec. by apply Hsame. }
  rewrite (Heq "bold"), (Heq "italic"), (Heq "code") by repeat constructor.
  reflexivity.
Qed.

(** C10. The result of the mark composer depends only on which of bold,
    italic and code occur in the marks: two lists with the same three
    presences give the same node, and so do a list and any permutation of
    it, and a list and any list with the same entries repeated. *)
Theorem handleText_marks_as_set (node : Slate.node) (ms ms' : list Slate.mark) :
  ((∀ ty, ty ∈ ["bold"; "italic"; "code"] → has_mark ty ms ↔ has_mark ty ms') →
   handleText (with_marks node ms) = handleText (with_marks node ms')) ∧
  (ms ≡ₚ ms' →
   handleText (with_marks node ms) = handleText (with_marks node ms')) ∧
  ((∀ m, m ∈ ms ↔ m ∈ ms') →
   handleText (with_marks node ms) = handleText (with_marks node ms')).
Proof.
  split; [apply handleText_presence|]. split.
  - intros Hperm. apply handleText_presence. intros ty _.
    unfold has_mark. by rewrite Hperm.
  - intros Hset. apply handleText_presence. intros ty _. apply Hset.
Qed.

Lemma handleText_marks_as_set_witness :
  handleText (with_marks (text_node "t" []) (Slate.Mark <$> ["bold"; "italic"]))
  = handleText (with_marks (text_node "t" []) (Slate.Mark <$> ["italic"; "bold"; "bold"])).
Proof.
  apply (proj2 (proj2 (handleText_marks_as_set (text_node "t" [])
                         (Slate.Mark <$> ["bold"; "italic"])
                         (Slate.Mark <$> ["italic"; "bold"; "bold"])))).
  intros m. cbn. rewrite !elem_of_cons, !elem_of_nil. tauto.
Defined.

(** ** The dispatch *)

Lemma create_element (node : Slate.node) (ty : string) :
  Slate.object node ≠ Some "text" →
  Slate.type node = Some ty →
  create node =
    (result ← switch_type node ty;
     match result with
     | Some result => Return result
     | None => Throw FailedToProcess
     end).
Proof.
  intros Hobj Hty. unfold create. rewrite Hty.
  destruct (Slate.object node) as [o|]; [|reflexivity].
  destruct (String.eqb_spec o "text") as [->|_]; [by destruct Hobj|reflexivity].
Qed.

Ltac case_label H :=
  match goal with
  | |- context [String.eqb ?ty ?lbl] =>
      destruct (String.eqb_spec ty lbl) as [->|?];
      [exfalso; apply H; repeat constructor|]
  end.

Lemma switch_type_unrecognized (node : Slate.node) (ty : string) :
  ty ∉ recognized → switch_type node ty = Return None.
Proof. intros H. unfold switch_type. repeat case_label H. reflexivity. Qed.

Lemma create_unhandled (node : Slate.node) :
  unhandled node → create node = Throw FailedToProcess.
Proof.
  intros [Hobj Hty]. destruct (Slate.type node) as [ty|] eqn:E.
  - rewrite (create_element node ty Hobj E).
    by rewrite (switch_type_unrecognized node ty (Hty ty eq_refl)).
  - unfold create. rewrite E.
    destruct (Slate.object node) as [o|]; [|reflexivity].
    destruct (String.eqb_spec o "text") as [->|_]; [by destruct Hobj|reflexivity].
Qed.

Lemma convert_unhandled (node : Slate.node) :
  unhandled node → convert node = Throw FailedToProcess.
Proof. intros H. rewrite convert_unfold, (create_unhandled node H). reflexivity. Qed.

(** ** Lists of nodes *)

(** When every node of the list converts, [_recursive] appends the
    converted nodes, in order, to the children the parent already has. *)
Lemma _recursive_Forall2 (nodes : list Slate.node) (cs : list Dom.node) :
  Forall2 (λ n c, convert n = Return c) nodes cs →
  ∀ parent pn,
    Dom.nodes parent = Some pn →
    _recursive parent nodes =
      Return (Dom.Node (Dom.class parent) (Dom.fields parent) (Some (pn ++ cs))).
Proof.
  induction 1 as [|n c nodes cs Hn _ IH]; intros parent pn Hpn.
  - cbn. rewrite app_nil_r, <- Hpn. by destruct parent.
  - cbn [_recursive]. unfold callback, attach. rewrite Hn. cbn.
    rewrite Hpn. cbn. erewrite IH by reflexivity. cbn.
    by rewrite <- app_assoc.
Qed.

(** Conversely, a call that returns has converted every node. *)
Lemma _recursive_Return (nodes : list Slate.node) :
  ∀ parent pn result,
    Dom.nodes parent = Some pn →
    _recursive parent nodes = Return result →
    ∃ cs, Forall2 (λ n c, convert n = Return c) nodes cs ∧
          result = Dom.Node (Dom.class parent) (Dom.fields parent) (Some (pn ++ cs)).
Proof.
  induction nodes as [|n nodes IH]; intros parent pn result Hpn Hret.
  - cbn in Hret. injection Hret as <-. exists []. split; [constructor|].
    rewrite app_nil_r, <- Hpn. by destruct parent.
  - cbn [_recursive] in Hret. unfold callback, attach in Hret.
    destruct (convert n) as [c|e] eqn:Hn; [|discriminate Hret].
    cbn in Hret. rewrite Hpn in Hret. cbn in Hret.
    apply (IH _ (pn ++ [c])) in Hret as (cs & Hcs & ->); [|reflexivity].
    exists (c :: cs). split; [by constructor|]. cbn. by rewrite <- app_assoc.
Qed.

(** An exception thrown for one node of the list leaves [_recursive]. *)
Lemma _recursive_throws (nodes : list Slate.node) (n : Slate.node) :
  n ∈ nodes → throws (convert n) → ∀ parent, throws (_recursive parent nodes).
Proof.
  intros Hin [e He]. induction nodes as [|m nodes IH]; intros parent.
  - by apply elem_of_nil in Hin.
  - cbn [_recursive]. unfold callback.
    destruct (convert m) as [c|e'] eqn:Hm; [|by exists e'].
    cbn. destruct (attach parent c) as [p|e']; [|by exists e'].
    cbn. apply elem_of_cons in Hin as [->|Hin]; [congruence|]. by apply IH.
Qed.

(** An exception thrown while the children of a node are processed leaves
    [convert]. *)
Lemma convert_throws_below (m : Slate.node) (result : Dom.node)
    (rnodes : list Dom.node) (children : list Slate.node) :
  create m = Return result →
  Dom.nodes result = Some rnodes →
  Slate.nodes m = Some children →
  (∀ parent, throws (_recursive parent children)) →
  throws (convert m).
Proof.
  intros Hc Hr Hn Hthrows. rewrite convert_unfold, Hc. cbn. rewrite Hn, Hr.
  destruct rnodes as [|first rest].
  - apply Hthrows.
  - destruct (Hthrows first) as [e ->]. by exists e.
Qed.

Lemma dispatched_unhandled_throws (nodes : list Slate.node) (bad : Slate.node) :
  unhandled bad → dispatched nodes bad → ∀ parent, throws (_recursive parent nodes).
Proof.
  intros Hbad Hd.
  induction Hd as [nodes n Hin|nodes m result rnodes children n Hin Hc Hr Hn _ IH].
  - apply (_recursive_throws nodes n Hin).
    exists FailedToProcess. by apply convert_unhandled.
  - apply (_recursive_throws nodes m Hin).
    apply (convert_throws_below m result rnodes children Hc Hr Hn).
    by apply IH.
Qed.

(** C8. A node that is not a text object and whose type is none of the
    recognised strings makes the dispatch throw, and the exception leaves
    the whole conversion: [slateToCiceroMarkDom] throws for every document
    in which the mapper reaches such a node, and returns no tree. *)
Theorem unhandled_node_aborts (bad : Slate.node) :
  unhandled bad →
  create bad = Throw FailedToProcess ∧
  (∀ parent, _recursive parent [bad] = Throw FailedToProcess) ∧
  (∀ document nodes,
     Slate.document_nodes document = Some nodes →
     dispatched nodes bad →
     throws (slateToCiceroMarkDom document) ∧
     ¬ returns (slateToCiceroMarkDom document)).
Proof.
  intros Hbad. split; [by apply create_unhandled|]. split.
  - intros parent. cbn [_recursive]. unfold callback.
    rewrite (convert_unhandled bad Hbad). reflexivity.
  - intros document nodes Hnodes Hd. unfold slateToCiceroMarkDom. rewrite Hnodes.
    destruct (dispatched_unhandled_throws nodes bad Hbad Hd
                (Document_of [])) as [e He].
    unfold Document_of in He. rewrite He. split; [by exists e|].
    intros [v Hv]. discriminate Hv.
Qed.

Lemma unhandled_bogus : unhandled (element "bogus" []).
Proof.
  split; [discriminate|]. intros ty [= <-] Hin.
  repeat (apply elem_of_cons in Hin as [Hin|Hin]; [discriminate Hin|]).
  by apply elem_of_nil in Hin.
Qed.

Lemma unhandled_node_aborts_witness :
  throws (slateToCiceroMarkDom
            (Slate.Document (Some [element "paragraph" [element "bogus" []]]))).
Proof.
  refine (proj1 (proj2 (proj2 (unhandled_node_aborts (element "bogus" []) unhandled_bogus))
                   (Slate.Document (Some [element "paragraph" [element "bogus" []]]))
                   [element "paragraph" [element "bogus" []]] eq_refl _)).
  eapply (dispatched_below _ (element "paragraph" [element "bogus" []])).
  - repeat constructor.
  - vm_compute. reflexivity.
  - reflexivity.
  - reflexivity.
  - apply dispatched_here. repeat constructor.
Defined.

(** C8, as stated, fails: an element the mapper has no case for, held
    by a code block, is never dispatched, and the conversion returns the
    tree without it. *)
Lemma unhandled_node_dropped :
  unhandled (element "bogus" []) ∧
  Slate.nodes sample_code_block = Some [element "bogus" []] ∧
  slateToCiceroMarkDom (Slate.Document (Some [sample_code_block]))
  = Return (Document_of
              [Dom.Node "org.accordproject.commonmark.CodeBlock"
                 {[ "text" := JStr "let x = 1" ]} None]) ∧
  ¬ dispatched [sample_code_block] (element "bogus" []).
Proof.
  split; [exact unhandled_bogus|]. split; [reflexivity|].
  split; [vm_compute; reflexivity|].
  intros H. inversion H as [nodes n Hin|nodes m result rnodes children n Hin Hc Hr Hn Hd];
    subst.
  - apply list_elem_of_singleton in Hin. discriminate Hin.
  - apply list_elem_of_singleton in Hin as ->.
    vm_compute in Hc. injection Hc as <-. discriminate Hr.
Qed.

(** ** List items *)

Lemma create_list_item (node : Slate.node) :
  Slate.object node ≠ Some "text" →
  Slate.type node = Some "list_item" →
  create node = Return (Item_of [Paragraph_of []]).
Proof. intros Hobj Hty. by rewrite (create_element node "list_item" Hobj Hty). Qed.

(** C5. A [list_item] element produces an Item whose only child is a
    Paragraph, and that Paragraph holds the converted children of the
    element, one for one and in order: it is what [convert] returns when
    every child converts, and whatever [convert] returns has this shape. *)
Theorem list_item_children_in_paragraph (node : Slate.node) :
  Slate.object node ≠ Some "text" →
  Slate.type node = Some "list_item" →
  let children := default [] (Slate.nodes node) in
  (∀ cs, Forall2 (λ child c, convert child = Return c) children cs →
         convert node = Return (Item_of [Paragraph_of cs])) ∧
  (∀ result, convert node = Return result →
             ∃ cs, Forall2 (λ child c, convert child = Return c) children cs ∧
                   length cs = length children ∧
                   result = Item_of [Paragraph_of cs]).
Proof.
  intros Hobj Hty children.
  pose proof (convert_unfold node) as Hconv.
  rewrite (create_list_item node Hobj Hty) in Hconv. cbn in Hconv.
  subst children. destruct (Slate.nodes node) as [children|]; cbn.
  - split.
    + intros cs Hcs. rewrite Hconv.
      by rewrite (_recursive_Forall2 children cs Hcs (Paragraph_of []) [] eq_refl).
    + intros result Hret. rewrite Hconv in Hret.
      destruct (_recursive (Paragraph_of []) children) as [first|e] eqn:Hrec;
        [|discriminate Hret].
      cbn in Hret. injection Hret as <-.
      apply (_recursive_Return children (Paragraph_of []) []) in Hrec
          as (cs & Hcs & ->); [|reflexivity].
      exists cs. split; [done|]. split; [|reflexivity].
      symmetry. by eapply Forall2_length.
  - split.
    + intros cs Hcs. apply Forall2_nil_inv_l in Hcs as ->. exact Hconv.
    + intros result Hret. rewrite Hconv in Hret. injection Hret as <-.
      exists []. split; [constructor|]. by split.
Qed.

Lemma list_item_children_in_paragraph_witness :
  convert (element "list_item" [text_node "a" []; text_node "b" ["bold"]])
  = Return (Item_of [Paragraph_of [Text_leaf (JStr "a");
                                   Strong_of [Text_leaf (JStr "b")]]]).
Proof.
  refine (proj1 (list_item_children_in_paragraph
                   (element "list_item" [text_node "a" []; text_node "b" ["bold"]])
                   _ eq_refl) _ _).
  - discriminate.
  - repeat constructor.
Defined.

(** ** Quotes *)

Lemma convert_quote (node : Slate.node) :
  Slate.object node ≠ Some "text" →
  Slate.type node = Some "quote" →
  convert node = Return (Dom.Node "org.accordproject.commonmark.BlockQuote" ∅ None).
Proof.
  intros Hobj Hty. rewrite convert_unfold, (create_element node "quote" Hobj Hty).
  cbn. by destruct (Slate.nodes node).
Qed.

(** C1. The [quote] case creates its BlockQuote without a [nodes] array,
    so the children of the element are never processed: the quote holding
    the text [hi] maps to a BlockQuote with no children list, while the
    same element under the type [block_quote] maps to a BlockQuote whose
    children list holds the Text leaf. *)
Theorem quote_loses_children :
  slateToCiceroMarkDom
    (Slate.Document (Some [element "quote" [text_node "hi" []]]))
  = Return (Document_of [Dom.Node "org.accordproject.commonmark.BlockQuote" ∅ None]) ∧
  slateToCiceroMarkDom
    (Slate.Document (Some [element "block_quote" [text_node "hi" []]]))
  = Return (Document_of [Dom.Node "org.accordproject.commonmark.BlockQuote" ∅
                           (Some [Text_leaf (JStr "hi")])]).
Proof. split; vm_compute; reflexivity. Qed.

(** ** Strings *)

Lemma substring_all (s : string) : String.substring 0 (String.length s) s = s.
Proof. induction s as [|c s IH]; [reflexivity|]. cbn. by rewrite IH. Qed.

Lemma append_cons (c : ascii) (a b : string) : String c a +:+ b = String c (a +:+ b).
Proof. reflexivity. Qed.

Lemma append_assoc (a b c : string) : (a +:+ b) +:+ c = a +:+ (b +:+ c).
Proof.
  induction a as [|x a IH]; [reflexivity|].
  by rewrite !append_cons, IH.
Qed.

Lemma append_empty_r (a : string) : a +:+ EmptyString = a.
Proof.
  induction a as [|x a IH]; [reflexivity|].
  by rewrite append_cons, IH.
Qed.

(** ** The tag classifier *)

Lemma replace_underscore_lower_match (d : ascii) (rest : string) :
  is_lower d = true →
  replace_underscore_lower (String "_" (String d rest))
  = String (upper_char d) (replace_underscore_lower rest).
Proof. intros Hd. cbn. by rewrite Hd. Qed.

Lemma replace_underscore_lower_keep (c : ascii) (rest : string) :
  (c ≠ "_"%char ∨ match rest with
                   | String d _ => is_lower d = false
                   | EmptyString => True
                   end) →
  replace_underscore_lower (String c rest)
  = String c (replace_underscore_lower rest).
Proof.
  intros H. destruct rest as [|d rest]; [reflexivity|].
  cbn [replace_underscore_lower].
  destruct (Ascii.eqb_spec c "_") as [->|Hc]; [|reflexivity].
  destruct H as [H|H]; [done|]. by rewrite H.
Qed.

Lemma underscores_before_lower_tail (c : ascii) (rest : string) :
  underscores_before_lower (String c rest) = true →
  underscores_before_lower rest = true.
Proof. cbn. by intros [_ H]%andb_prop. Qed.

(** [capitalizeFirstLetter] hands the first character to [toUpperCase]
    and keeps the rest. *)
Lemma capitalizeFirstLetter_cons (toUpperCase : string → string) (c : ascii)
    (rest : string) :
  capitalizeFirstLetter toUpperCase (String c rest)
  = toUpperCase (String c EmptyString) +:+ rest.
Proof.
  unfold capitalizeFirstLetter, charAt, slice. cbn.
  rewrite Nat.sub_0_r, substring_all. by destruct rest.
Qed.

Lemma capitalizeFirstLetter_empty (toUpperCase : string → string) :
  capitalizeFirstLetter toUpperCase EmptyString = toUpperCase EmptyString.
Proof. unfold capitalizeFirstLetter, charAt, slice. cbn. apply append_empty_r. Qed.

Lemma capitalizeFirstLetter_spec (toUpperCase : string → string) (s : string) :
  toUpperCase EmptyString = EmptyString →
  capitalizeFirstLetter toUpperCase s = capitalize_spec toUpperCase s.
Proof.
  intros Hempty. destruct s as [|c rest].
  - by rewrite capitalizeFirstLetter_empty.
  - apply capitalizeFirstLetter_cons.
Qed.

(** On a name whose underscores all precede a lower-case letter the
    replacement is the camel-casing of the specification. *)
Lemma replace_underscore_lower_spec (toUpperCase : string → string) (name : string) :
  (∀ c, is_lower c = true →
        toUpperCase (String c EmptyString) = String (upper_char c) EmptyString) →
  underscores_before_lower name = true →
  replace_underscore_lower name = camel_case_spec toUpperCase false name.
Proof.
  intros Hupper.
  enough (H : (underscores_before_lower name = true →
               replace_underscore_lower name = camel_case_spec toUpperCase false name) ∧
              ∀ c, underscores_before_lower (String c name) = true →
                   replace_underscore_lower (String c name)
                   = camel_case_spec toUpperCase false (String c name))
    by apply H.
  induction name as [|d rest [IH1 IH2]].
  - split; [reflexivity|]. intros c Hc. cbn in *.
    destruct (Ascii.eqb c "_"); [discriminate Hc|reflexivity].
  - split; [apply IH2|]. intros c Hc.
    pose proof (underscores_before_lower_tail _ _ Hc) as Hd.
    pose proof (underscores_before_lower_tail _ _ Hd) as Hrest.
    destruct (Ascii.eqb_spec c "_") as [->|Hne].
    + assert (Hlow : is_lower d = true).
      { cbn in Hc. by apply andb_prop in Hc as [Hc _]. }
      rewrite (replace_underscore_lower_match d rest Hlow), (IH1 Hrest).
      cbn [camel_case_spec]. change (Ascii.eqb "_" "_") with true. cbv iota.
      destruct (Ascii.eqb_spec d "_") as [->|_]; [discriminate Hlow|].
      by rewrite (Hupper d Hlow).
    + rewrite replace_underscore_lower_keep by (by left).
      rewrite (IH2 d Hd). cbn [camel_case_spec].
      by destruct (Ascii.eqb_spec c "_").
Qed.

Lemma all_lower_not_underscore (c : ascii) : is_lower c = true → c ≠ "_"%char.
Proof. by intros H ->. Qed.

(** A word of lower-case letters passes through the replacement. *)
Lemma replace_underscore_lower_word (w s : string) :
  all_lower w = true →
  replace_underscore_lower (w +:+ s) = w +:+ replace_underscore_lower s.
Proof.
  induction w as [|c w IH]; [reflexivity|].
  cbn [all_lower]. intros [Hc Hw]%andb_prop.
  rewrite !append_cons, replace_underscore_lower_keep, (IH Hw); [reflexivity|].
  left. by apply all_lower_not_underscore.
Qed.

Lemma replace_underscore_lower_words (words : list string) :
  Forall (λ w, lower_word w = true) words →
  replace_underscore_lower (concat_strings ((λ w, "_" +:+ w) <$> words))
  = concat_strings (capitalise_word <$> words).
Proof.
  induction 1 as [|w words Hw _ IH]; [reflexivity|].
  destruct w as [|d w]; [discriminate Hw|].
  cbn [lower_word all_lower] in Hw. apply andb_prop in Hw as [Hd Hw].
  cbn [fmap list_fmap concat_strings capitalise_word].
  rewrite !append_cons. change (EmptyString +:+ String d w) with (String d w).
  rewrite append_cons, (replace_underscore_lower_match d _ Hd).
  by rewrite (replace_underscore_lower_word w _ Hw), IH.
Qed.

(** C3. The classifier is a total function: for every name it
    returns the prefix followed by the camel-cased name with its first
    character handed to [toUpperCase] and the rest kept, where the
    camel-casing replaces an underscore immediately followed by a letter
    of [a-z], with that letter, by the letter in upper case, and keeps
    every other character, an underscore followed by anything else
    included.  On the names whose underscores all precede a lower-case
    letter this is the classification of the specification, and on the
    names in underscore-delimited lower case it is the prefix followed by
    the words, each with its first letter in upper case. *)
Theorem toClass_camel_case (toUpperCase : string → string) (prefix name : string) :
  toUpperCase EmptyString = EmptyString →
  (∀ c, is_lower c = true →
        toUpperCase (String c EmptyString) = String (upper_char c) EmptyString) →
  toClass prefix toUpperCase name
  = prefix +:+ capitalize_spec toUpperCase (replace_underscore_lower name) ∧
  (underscores_before_lower name = true →
   toClass prefix toUpperCase name = toClass_spec toUpperCase prefix name) ∧
  (∀ words, Forall (λ w, lower_word w = true) words →
            name = snake words →
            toClass prefix toUpperCase name
            = prefix +:+ concat_strings (capitalise_word <$> words)) ∧
  (∀ d rest, is_lower d = true →
     replace_underscore_lower (String "_" (String d rest))
     = String (upper_char d) (replace_underscore_lower rest)) ∧
  (∀ c rest,
     (c ≠ "_"%char ∨ match rest with
                      | String d _ => is_lower d = false
                      | EmptyString => True
                      end) →
     replace_underscore_lower (String c rest) = String c (replace_underscore_lower rest)).
Proof.
  intros Hempty Hupper.
  assert (Hshape : toClass prefix toUpperCase name
                   = prefix +:+ capitalize_spec toUpperCase (replace_underscore_lower name)).
  { unfold toClass. by rewrite (capitalizeFirstLetter_spec toUpperCase _ Hempty). }
  split; [exact Hshape|]. split; [|split].
  - intros Hname. rewrite Hshape. unfold toClass_spec.
    by rewrite (replace_underscore_lower_spec toUpperCase name Hupper Hname).
  - intros words Hwords ->. rewrite Hshape. f_equal.
    destruct Hwords as [|w words Hw Hwords]; [reflexivity|].
    destruct w as [|c w]; [discriminate Hw|].
    cbn [lower_word all_lower] in Hw. apply andb_prop in Hw as [Hc Hw].
    cbn [snake]. rewrite append_cons, replace_underscore_lower_keep
      by (left; by apply all_lower_not_underscore).
    rewrite (replace_underscore_lower_word w _ Hw),
      (replace_underscore_lower_words words Hwords).
    cbn [capitalize_spec fmap list_fmap concat_strings capitalise_word].
    by rewrite (Hupper c Hc), !append_cons.
  - split; [apply replace_underscore_lower_match|apply replace_underscore_lower_keep].
Qed.

Lemma toClass_camel_case_witness :
  toClass "org.accordproject.commonmark." sample_toUpperCase "thematic_break"
  = "org.accordproject.commonmark.ThematicBreak".
Proof.
  refine (proj1 (proj2 (proj2 (toClass_camel_case sample_toUpperCase
                                 "org.accordproject.commonmark." "thematic_break"
                                 eq_refl _)))
            ["thematic"; "break"] _ eq_refl).
  - intros c _. reflexivity.
  - repeat constructor.
Defined.

(** C3, as stated, fails: in [a_1] the underscore is not followed by a
    lower-case letter and stays, where the specification removes it. *)
Lemma toClass_keeps_underscore :
  toClass "org.accordproject.commonmark." sample_toUpperCase "a_1"
  = "org.accordproject.commonmark.A_1" ∧
  toClass_spec sample_toUpperCase "org.accordproject.commonmark." "a_1"
  = "org.accordproject.commonmark.A1" ∧
  toClass "org.accordproject.commonmark." sample_toUpperCase "a_1"
  ≠ toClass_spec sample_toUpperCase "org.accordproject.commonmark." "a_1".
Proof. split; [reflexivity|]. split; [reflexivity|]. discriminate. Qed.

(** ** Plain objects *)

Lemma lookup_property_Some_elem (k : string) (object : list (string * string)) :
  is_Some (lookup_property k object) ↔ k ∈ object.*1.
Proof.
  induction object as [|[k0 v0] object IH]; cbn.
  - split; [by intros [? ?]|by intros ?%elem_of_nil].
  - rewrite elem_of_cons. destruct (String.eqb_spec k0 k) as [->|Hne].
    + split; [by left|by eexists].
    + rewrite IH. split; [by right|]. by intros [->|H].
Qed.

Lemma lookup_property_None_elem (k : string) (object : list (string * string)) :
  lookup_property k object = None ↔ k ∉ object.*1.
Proof.
  rewrite <- lookup_property_Some_elem, <- eq_None_not_Some. done.
Qed.

(** With distinct names, a property of the object is found under its
    name. *)
Lemma lookup_property_elem (k v : string) (object : list (string * string)) :
  NoDup object.*1 → (k, v) ∈ object → lookup_property k object = Some v.
Proof.
  induction object as [|[k0 v0] object IH]; [by intros _ ?%elem_of_nil|].
  cbn. intros [Hk0 Hnodup]%NoDup_cons [[= -> ->]|Hin]%elem_of_cons.
  - by rewrite String.eqb_refl.
  - destruct (String.eqb_spec k0 k) as [->|_]; [|by apply IH].
    destruct Hk0. apply list_elem_of_fmap. by exists (k, v).
Qed.

Lemma lookup_update_property (name value k : string) (object : list (string * string)) :
  lookup_property k (update_property name value object)
  = if String.eqb name k then Some value else lookup_property k object.
Proof.
  induction object as [|[k0 v0] object IH]; [reflexivity|].
  cbn [update_property]. destruct (String.eqb_spec k0 name) as [->|Hne].
  - cbn. by destruct (String.eqb name k).
  - cbn. rewrite IH. destruct (String.eqb_spec k0 k) as [->|_]; [|reflexivity].
    by rewrite (proj2 (String.eqb_neq name k)).
Qed.

Lemma lookup_property_app (k : string) (l1 l2 : list (string * string)) :
  lookup_property k (l1 ++ l2)
  = match lookup_property k l1 with
    | Some v => Some v
    | None => lookup_property k l2
    end.
Proof.
  induction l1 as [|[k0 v0] l1 IH]; [reflexivity|].
  cbn. by destruct (String.eqb k0 k).
Qed.

Lemma update_property_keys (name value : string) (object : list (string * string)) :
  (update_property name value object).*1 = object.*1 ∧ name ∈ object.*1
  ∨ (update_property name value object = object ++ [(name, value)] ∧ name ∉ object.*1).
Proof.
  induction object as [|[k0 v0] object IH].
  - right. split; [reflexivity|]. apply not_elem_of_nil.
  - cbn [update_property]. destruct (String.eqb_spec k0 name) as [->|Hne].
    + left. split; [reflexivity|]. cbn. apply elem_of_cons. by left.
    + destruct IH as [[Hkeys Hin]|[Hset Hnotin]].
      * left. split; [cbn; by rewrite Hkeys|]. cbn. apply elem_of_cons. by right.
      * right. split; [by rewrite Hset|]. cbn. rewrite elem_of_cons.
        intros [Heq|Hin]; [by destruct Hne|by destruct Hnotin].
Qed.

(** The names of the object after an assignment: those it had, and the
    assigned name unless it is [__proto__]. *)
Lemma set_property_keys (name value k : string) (object : list (string * string)) :
  k ∈ (set_property name value object).*1 ↔
  k ∈ object.*1 ∨ (k = name ∧ name ≠ "__proto__").
Proof.
  unfold set_property. destruct (String.eqb_spec name "__proto__") as [->|Hne].
  - split; [by left|]. by intros [H|[_ H]].
  - destruct (update_property_keys name value object) as [[-> Hin]|[-> Hnotin]].
    + split; [by left|]. by intros [H|[-> _]].
    + rewrite fmap_app, elem_of_app. cbn. rewrite list_elem_of_singleton.
      split; [intros [H| ->]; auto|]. intros [H|[-> _]]; auto.
Qed.

Lemma set_property_NoDup (name value : string) (object : list (string * string)) :
  NoDup object.*1 → NoDup (set_property name value object).*1.
Proof.
  intros Hnodup. unfold set_property.
  destruct (String.eqb name "__proto__"); [done|].
  destruct (update_property_keys name value object) as [[-> _]|[-> Hnotin]]; [done|].
  rewrite fmap_app. cbn. apply NoDup_app. split; [done|]. split.
  - intros k Hk ->%list_elem_of_singleton. by destruct Hnotin.
  - apply NoDup_singleton.
Qed.

Lemma set_properties_from_NoDup (attributes : list (string * string)) :
  ∀ o, NoDup o.*1 →
       NoDup (fold_left (λ o '(name, value), set_property name value o) attributes o).*1.
Proof.
  induction attributes as [|[name value] attributes IH]; intros o Ho; [done|].
  cbn [fold_left]. by apply IH, set_property_NoDup.
Qed.

Lemma set_properties_from_keys (k : string) (attributes : list (string * string)) :
  ∀ o, k ∈ (fold_left (λ o '(name, value), set_property name value o) attributes o).*1 →
       k ∈ o.*1 ∨ k ∈ attributes.*1.
Proof.
  induction attributes as [|[name value] attributes IH]; intros o Hk; [by left|].
  cbn [fold_left] in Hk. apply IH in Hk as [Hk|Hk].
  - apply set_property_keys in Hk as [Hk|[-> _]]; [by left|].
    right. cbn. apply elem_of_cons. by left.
  - right. cbn. apply elem_of_cons. by right.
Qed.

Lemma set_properties_NoDup (attributes : list (string * string)) :
  NoDup (set_properties attributes).*1.
Proof. apply set_properties_from_NoDup. constructor. Qed.

Lemma set_properties_keys (k : string) (attributes : list (string * string)) :
  k ∈ (set_properties attributes).*1 → k ∈ attributes.*1.
Proof.
  intros [H|H]%set_properties_from_keys; [|done]. by apply elem_of_nil in H.
Qed.

(** ** The HTML fragment inspector *)

(** The loop over the attributes, one accumulator at a time. *)
Lemma attributes_loop (attributes : list (string * string)) :
  ∀ s o,
    fold_left
      (λ '(attributeString, attributeObject) '(name, value),
         (attributeString +:+ name +:+ " = " +:+ dquote +:+ value +:+ dquote +:+ " ",
          set_property name value attributeObject))
      attributes (s, o)
    = (s +:+ concat_strings (format_attribute <$> attributes),
       fold_left (λ o '(name, value), set_property name value o) attributes o).
Proof.
  induction attributes as [|[name value] attributes IH]; intros s o.
  - cbn. by rewrite append_empty_r.
  - cbn [fold_left fmap list_fmap concat_strings]. rewrite IH.
    unfold format_attribute. cbn [fst snd]. by rewrite !append_assoc.
Qed.

Section ParseHtmlBlock.

Variable toLowerCase : string → string.
Variable parseFromString : option value → outcome (option DomDocument).

Local Abbreviation parseHtmlBlock' := (parseHtmlBlock toLowerCase parseFromString).
Local Abbreviation parseHtmlBlock_try' := (parseHtmlBlock_try toLowerCase parseFromString).

Lemma parseHtmlBlock_try_throws (input : option value) (e : error) :
  parseHtmlBlock_try' input = Throw e →
  parseHtmlBlock' input = Return None.
Proof. intros H. unfold parseHtmlBlock. by rewrite H. Qed.

Lemma parseHtmlBlock_total (input : option value) :
  returns (parseHtmlBlock' input).
Proof.
  unfold parseHtmlBlock.
  destruct (parseHtmlBlock_try' input) as [t|e]; cbn; by eexists.
Qed.

(** The tag object of an element. *)
Lemma parseHtmlBlock_element (input : option value) (doc : DomDocument)
    (item : DomNode) (rest : list DomNode) (attributes : list (string * string))
    (name s : string) :
  parseFromString input = Return (Some doc) →
  childNodes doc = item :: rest →
  dom_attributes item = Some attributes →
  dom_tagName item = Some name →
  input = Some (VStr s) →
  parseHtmlBlock' input =
    Return (Some {| tag := toLowerCase name;
                    tag_attributes := set_properties attributes;
                    tag_attributeString := concat_strings (format_attribute <$> attributes);
                    tag_content := dom_textContent item;
                    tag_closed := endsWith s "/>" |}).
Proof.
  intros H Hitem Hattr Hname ->.
  unfold parseHtmlBlock, parseHtmlBlock_try. rewrite H. cbn.
  rewrite Hitem. cbn. rewrite Hattr. cbn.
  rewrite attributes_loop, Hname. reflexivity.
Qed.

(** A tag object comes from an element and from nothing else. *)
Lemma parseHtmlBlock_Some (input : option value) (t : HtmlTag) :
  parseHtmlBlock' input = Return (Some t) →
  ∃ doc item rest attributes name s,
    parseFromString input = Return (Some doc) ∧
    childNodes doc = item :: rest ∧
    dom_attributes item = Some attributes ∧
    dom_tagName item = Some name ∧
    input = Some (VStr s) ∧
    t = {| tag := toLowerCase name;
           tag_attributes := set_properties attributes;
           tag_attributeString := concat_strings (format_attribute <$> attributes);
           tag_content := dom_textContent item;
           tag_closed := endsWith s "/>" |}.
Proof.
  intros Hret.
  destruct (parseFromString input) as [[doc|]|e] eqn:Hdoc.
  2,3: unfold parseHtmlBlock, parseHtmlBlock_try in Hret; rewrite Hdoc in Hret;
       discriminate Hret.
  destruct (childNodes doc) as [|item rest] eqn:Hitem.
  { unfold parseHtmlBlock, parseHtmlBlock_try in Hret. rewrite Hdoc in Hret.
    cbn in Hret. rewrite Hitem in Hret. discriminate Hret. }
  destruct (dom_attributes item) as [attributes|] eqn:Hattr.
  2:{ unfold parseHtmlBlock, parseHtmlBlock_try in Hret. rewrite Hdoc in Hret.
      cbn in Hret. rewrite Hitem in Hret. cbn in Hret. rewrite Hattr in Hret.
      discriminate Hret. }
  destruct (dom_tagName item) as [name|] eqn:Hname.
  2:{ unfold parseHtmlBlock, parseHtmlBlock_try in Hret. rewrite Hdoc in Hret.
      cbn in Hret. rewrite Hitem in Hret. cbn in Hret. rewrite Hattr in Hret.
      cbn in Hret. rewrite attributes_loop, Hname in Hret. discriminate Hret. }
  assert (Hs : ∃ s, input = Some (VStr s)).
  { destruct input as [[s| | |]|]; [by eexists|..];
      unfold parseHtmlBlock, parseHtmlBlock_try in Hret; rewrite Hdoc in Hret;
      cbn in Hret; rewrite Hitem in Hret; cbn in Hret; rewrite Hattr in Hret;
      cbn in Hret; rewrite attributes_loop, Hname in Hret; discriminate Hret. }
  destruct Hs as [s Hs].
  rewrite (parseHtmlBlock_element input doc item rest attributes name s
             Hdoc Hitem Hattr Hname Hs) in Hret.
  injection Hret as <-. by exists doc, item, rest, attributes, name, s.
Qed.

(** C9. Whatever the parser does with the input, [parseHtmlBlock]
    returns, and what it returns is a tag object or null.  It is null
    when the parser throws, when it gives no document, when the document
    has no first child, when the first child is not an element (it has no
    attributes, or no tag name), and when the input is not a string.  It
    is the tag object of the first child, with the tag name in lower
    case, the attributes, the attribute string, the text content and the
    closed flag, when that child is an element and the input a string. *)
Theorem parseHtmlBlock_returns (input : option value) :
  ((∃ t, parseHtmlBlock' input = Return (Some t)) ∨
   parseHtmlBlock' input = Return None) ∧
  (throws (parseFromString input) → parseHtmlBlock' input = Return None) ∧
  (parseFromString input = Return None → parseHtmlBlock' input = Return None) ∧
  (∀ doc, parseFromString input = Return (Some doc) →
          childNodes doc = [] →
          parseHtmlBlock' input = Return None) ∧
  (∀ doc item rest,
     parseFromString input = Return (Some doc) →
     childNodes doc = item :: rest →
     dom_attributes item = None ∨ dom_tagName item = None →
     parseHtmlBlock' input = Return None) ∧
  ((∀ s, input ≠ Some (VStr s)) → parseHtmlBlock' input = Return None) ∧
  (∀ doc item rest attributes name s,
     parseFromString input = Return (Some doc) →
     childNodes doc = item :: rest →
     dom_attributes item = Some attributes →
     dom_tagName item = Some name →
     input = Some (VStr s) →
     parseHtmlBlock' input =
       Return (Some {| tag := toLowerCase name;
                       tag_attributes := set_properties attributes;
                       tag_attributeString :=
                         concat_strings (format_attribute <$> attributes);
                       tag_content := dom_textContent item;
                       tag_closed := endsWith s "/>" |})).
Proof.
  split; [|split; [|split; [|split; [|split; [|split]]]]].
  - destruct (parseHtmlBlock_total input) as [[t|] Hret]; eauto.
  - intros [e He]. apply (parseHtmlBlock_try_throws input e).
    unfold parseHtmlBlock_try. by rewrite He.
  - intros H. apply (parseHtmlBlock_try_throws input TypeError).
    unfold parseHtmlBlock_try. by rewrite H.
  - intros doc H Hnil. apply (parseHtmlBlock_try_throws input TypeError).
    unfold parseHtmlBlock_try. rewrite H. cbn. by rewrite Hnil.
  - intros doc item rest H Hitem Hnot.
    destruct (parseHtmlBlock_total input) as [[t|] Hret]; [|done].
    destruct (parseHtmlBlock_Some input t Hret)
      as (doc' & item' & rest' & attributes & name & s & H1 & H2 & H3 & H4 & _).
    rewrite H in H1. injection H1 as <-. rewrite Hitem in H2.
    injection H2 as <- <-. destruct Hnot as [Hnot|Hnot]; congruence.
  - intros Hstring.
    destruct (parseHtmlBlock_total input) as [[t|] Hret]; [|done].
    destruct (parseHtmlBlock_Some input t Hret)
      as (_ & _ & _ & _ & _ & s & _ & _ & _ & _ & Hs & _).
    by destruct (Hstring s).
  - apply parseHtmlBlock_element.
Qed.

End ParseHtmlBlock.

Lemma parseHtmlBlock_returns_witness :
  parseHtmlBlock sample_toLowerCase sample_parser (Some (VStr "<!-- c -->"))
  = Return None ∧
  parseHtmlBlock sample_toLowerCase sample_parser (Some (VStr "<a href='u' id='i'>x</a>"))
  = Return (Some {| tag := "a";
                    tag_attributes := [("href", "u"); ("id", "i")];
                    tag_attributeString :=
                      concat_strings (format_attribute <$> [("href", "u"); ("id", "i")]);
                    tag_content := Some "x";
                    tag_closed := false |}).
Proof.
  split.
  - refine (proj1 (proj2 (proj2 (proj2 (proj2
              (parseHtmlBlock_returns sample_toLowerCase sample_parser
                 (Some (VStr "<!-- c -->")))))))
              _ (dom_comment " c ") [] eq_refl eq_refl _).
    left. reflexivity.
  - exact (proj2 (proj2 (proj2 (proj2 (proj2 (proj2
             (parseHtmlBlock_returns sample_toLowerCase sample_parser
                (Some (VStr "<a href='u' id='i'>x</a>"))))))))
             _ _ _ _ _ _ eq_refl eq_refl eq_refl eq_refl eq_refl).
Defined.

(** ** Enumeration of a plain object *)

Lemma for_in_elem (p : string * string) (object : list (string * string)) :
  p ∈ for_in object ↔ p ∈ object.
Proof.
  unfold for_in. rewrite elem_of_app, merge_sort_Permutation, !list_elem_of_filter.
  split; [by intros [[_ H]|[_ H]]|]. intros H.
  destruct (array_index p.1) eqn:Hp; [left|right]; by rewrite ?Hp.
Qed.

Lemma for_in_Permutation (object : list (string * string)) :
  for_in object ≡ₚ object.
Proof.
  unfold for_in. rewrite merge_sort_Permutation.
  induction object as [|p object IH]; [done|].
  rewrite !filter_cons. destruct (array_index p.1) eqn:Hp.
  - rewrite decide_True by by eexists. rewrite decide_False by done.
    cbn. by rewrite IH.
  - rewrite decide_False by by intros [? ?].
    rewrite decide_True by done.
    rewrite <- Permutation_middle. by rewrite IH.
Qed.

(** An object without a property named by an array index is enumerated
    in the order of creation. *)
Lemma for_in_creation_order (object : list (string * string)) :
  Forall (λ p, array_index p.1 = None) object → for_in object = object.
Proof.
  intros H. unfold for_in.
  assert (Hnone : filter (λ p : string * string, is_Some (array_index p.1)) object = []).
  { induction H as [|p object Hp _ IH]; [done|].
    rewrite filter_cons, decide_False; [done|]. rewrite Hp. by intros [? ?]. }
  assert (Hall : filter (λ p : string * string, array_index p.1 = None) object = object).
  { clear Hnone. induction H as [|p object Hp _ IH]; [done|].
    rewrite filter_cons, decide_True by exact Hp. by rewrite IH. }
  by rewrite Hnone, Hall.
Qed.

(** Names that are array indices come first, in ascending order. *)
Example for_in_order :
  for_in [("b", "1"); ("10", "x"); ("2", "y"); ("a", "z"); ("01", "w")]
  = [("2", "y"); ("10", "x"); ("b", "1"); ("a", "z"); ("01", "w")].
Proof. vm_compute. reflexivity. Qed.

(** ** The tag object of a text event *)

Section MakeTag.

Variable COMMON_NS_PREFIX : string.

Local Abbreviation make_attribute' := (make_attribute COMMON_NS_PREFIX).

(** The body of the loop over the properties of [tagInfo.attributes]. *)
Local Abbreviation loop_body object :=
  (λ (attributes : outcome (list Attribute)) '((attName, _) : string * string),
     attributes ← attributes;
     own ← hasOwnProperty object attName;
     match own, lookup_property attName object with
     | true, Some attValue => Return (attributes ++ [make_attribute' attName attValue])
     | _, _ => Return attributes
     end).

Lemma tag_attributes_loop_Throw (object l : list (string * string)) (e : error) :
  fold_left (loop_body object) l (Throw e) = Throw e.
Proof. induction l as [|[k v] l IH]; [done|]. exact IH. Qed.

Lemma tag_attributes_loop_shadowed (object l : list (string * string))
    (acc : list Attribute) (v : string) :
  lookup_property "hasOwnProperty" object = Some v →
  l ≠ [] →
  fold_left (loop_body object) l (Return acc) = Throw TypeError.
Proof.
  intros Hown Hl. destruct l as [|[k w] l]; [done|].
  assert (Hthrow : hasOwnProperty object k = Throw TypeError).
  { unfold hasOwnProperty. by rewrite Hown. }
  cbn [fold_left]. cbn [mbind outcome_bind bind]. rewrite Hthrow.
  apply tag_attributes_loop_Throw.
Qed.

Lemma tag_attributes_loop_own (object l : list (string * string)) :
  lookup_property "hasOwnProperty" object = None →
  Forall (λ p, p ∈ object) l →
  ∀ acc,
    fold_left (loop_body object) l (Return acc)
    = Return (acc ++ ((λ p : string * string,
                         make_attribute' p.1 (default p.2 (lookup_property p.1 object)))
                        <$> l)).
Proof.
  intros Hown Hl. induction Hl as [|[k w] l Hp _ IH]; intros acc.
  - cbn. by rewrite app_nil_r.
  - assert (Hk : is_Some (lookup_property k object)).
    { apply lookup_property_Some_elem, list_elem_of_fmap. by exists (k, w). }
    assert (Hret : hasOwnProperty object k = Return true).
    { unfold hasOwnProperty. rewrite Hown. by rewrite bool_decide_eq_true_2. }
    destruct Hk as [v Hv].
    cbn [fold_left]. cbn [mbind outcome_bind bind]. rewrite Hret.
    cbn [mbind outcome_bind bind]. rewrite Hv. cbn [mbind outcome_bind bind].
    rewrite IH. cbn [fmap list_fmap fst snd]. rewrite Hv. cbn.
    by rewrite <- app_assoc.
Qed.

(** The loop throws whenever the object has a property [hasOwnProperty]
    of its own, and otherwise gives one attribute for each property, in
    the order of the enumeration. *)
Lemma tag_attributes_loop_spec (object : list (string * string)) :
  tag_attributes_loop COMMON_NS_PREFIX object =
    match lookup_property "hasOwnProperty" object with
    | Some _ => Throw TypeError
    | None =>
        Return ((λ p : string * string,
                   make_attribute' p.1 (default p.2 (lookup_property p.1 object)))
                  <$> for_in object)
    end.
Proof.
  unfold tag_attributes_loop.
  destruct (lookup_property "hasOwnProperty" object) as [v|] eqn:Hown.
  - apply (tag_attributes_loop_shadowed object (for_in object) [] v Hown).
    assert (Hin : "hasOwnProperty" ∈ object.*1).
    { apply lookup_property_Some_elem. by rewrite Hown. }
    apply list_elem_of_fmap in Hin as ([k w] & _ & Hin).
    apply for_in_elem in Hin. intros Hnil. rewrite Hnil in Hin.
    by apply elem_of_nil in Hin.
  - apply (tag_attributes_loop_own object (for_in object) Hown).
    apply Forall_forall. intros p Hp. by apply for_in_elem.
Qed.

(** With distinct names, the attributes are the properties of the
    object. *)
Lemma tag_attributes_loop_NoDup (object : list (string * string)) :
  NoDup object.*1 →
  lookup_property "hasOwnProperty" object = None →
  tag_attributes_loop COMMON_NS_PREFIX object =
    Return ((λ p : string * string, make_attribute' p.1 p.2) <$> for_in object).
Proof.
  intros Hnodup Hown. rewrite tag_attributes_loop_spec, Hown. f_equal.
  apply list_fmap_ext. intros i [k v] Hi. cbn.
  assert (Hin : (k, v) ∈ object).
  { apply for_in_elem. by eapply list_elem_of_lookup_2. }
  by rewrite (lookup_property_elem k v object Hnodup Hin).
Qed.

Lemma make_tag_spec (tagInfo : HtmlTag) :
  make_tag COMMON_NS_PREFIX tagInfo =
    match lookup_property "hasOwnProperty" (tag_attributes tagInfo) with
    | Some _ => Throw TypeError
    | None =>
        Return {| taginfo_class := COMMON_NS_PREFIX +:+ "TagInfo";
                  tagName := tag tagInfo;
                  attributeString := tag_attributeString tagInfo;
                  attributes :=
                    (λ p : string * string,
                       make_attribute' p.1
                         (default p.2 (lookup_property p.1 (tag_attributes tagInfo))))
                      <$> for_in (tag_attributes tagInfo);
                  content := tag_content tagInfo;
                  closed := tag_closed tagInfo |}
    end.
Proof.
  unfold make_tag. rewrite tag_attributes_loop_spec.
  by destruct (lookup_property "hasOwnProperty" (tag_attributes tagInfo)).
Qed.

End MakeTag.

(** The attribute object of a tag object the inspector returns has
    distinct names. *)
Lemma parseHtmlBlock_NoDup (toLowerCase : string → string)
    (parseFromString : option value → outcome (option DomDocument))
    (input : option value) (tagInfo : HtmlTag) :
  parseHtmlBlock toLowerCase parseFromString input = Return (Some tagInfo) →
  NoDup (tag_attributes tagInfo).*1.
Proof.
  intros H.
  destruct (parseHtmlBlock_Some toLowerCase parseFromString input tagInfo H)
    as (doc & item & rest & attributes & name & s & _ & _ & _ & _ & _ & ->).
  apply set_properties_NoDup.
Qed.

(** ** Node kinds *)

Lemma class_is_insert (prefix : string) (json : gmap string value)
    (k : string) (v : value) (name : string) :
  k ≠ "$class" →
  class_is prefix (<[k := v]> json) name = class_is prefix json name.
Proof. intros Hk. unfold class_is. by rewrite lookup_insert_ne by done. Qed.

Lemma not_leaf_not_html (prefix : string) (json : gmap string value) :
  isLeafNode prefix json = false →
  isHtmlNode prefix json || isCodeBlockNode prefix json = false.
Proof.
  unfold isLeafNode, isHtmlNode, isCodeBlockNode.
  destruct (class_is prefix json "Text"), (class_is prefix json "CodeBlock"),
    (class_is prefix json "HtmlInline"), (class_is prefix json "HtmlBlock"),
    (class_is prefix json "Code"); cbn; congruence.
Qed.

Lemma html_is_leaf (prefix : string) (json : gmap string value) :
  isHtmlNode prefix json || isCodeBlockNode prefix json = true →
  isLeafNode prefix json = true.
Proof.
  intros H. destruct (isLeafNode prefix json) eqn:Hleaf; [reflexivity|].
  by rewrite (not_leaf_not_html prefix json Hleaf) in H.
Qed.

Lemma store_same (st : state) (r : ref) (json : gmap string value) :
  heap st !! r = Some json → store r json st = st.
Proof.
  intros H. unfold store. destruct st as [h s]. cbn in *.
  by rewrite list_insert_id.
Qed.

(** ** The handlers *)

Section Handlers.

Variable COMMON_NS_PREFIX : string.
Variable trim : string → string.
Variable toUpperCase : string → string.
Variable toLowerCase : string → string.
Variable parseFromString : option value → outcome (option DomDocument).
Variable options : option Options.

Local Abbreviation ontext' :=
  (ontext COMMON_NS_PREFIX trim toLowerCase parseFromString options).
Local Abbreviation onopentag' := (onopentag COMMON_NS_PREFIX toUpperCase options).
Local Abbreviation handle' :=
  (handle COMMON_NS_PREFIX trim toUpperCase toLowerCase parseFromString options).
Local Abbreviation run' :=
  (run COMMON_NS_PREFIX trim toUpperCase toLowerCase parseFromString options).
Local Abbreviation fromMarkdown' :=
  (fromMarkdown COMMON_NS_PREFIX trim toUpperCase toLowerCase parseFromString options).
Local Abbreviation isLeafNode' := (isLeafNode COMMON_NS_PREFIX).
Local Abbreviation isHtmlNode' := (isHtmlNode COMMON_NS_PREFIX).
Local Abbreviation isCodeBlockNode' := (isCodeBlockNode COMMON_NS_PREFIX).
Local Abbreviation parseHtmlBlock' := (parseHtmlBlock toLowerCase parseFromString).
Local Abbreviation shadows' := (shadows_hasOwnProperty toLowerCase parseFromString).
Local Abbreviation input_safe' := (input_safe toLowerCase parseFromString options).
Local Abbreviation frames_safe' := (frames_safe toLowerCase parseFromString options).
Local Abbreviation tags_safe' := (tags_safe trim toLowerCase parseFromString options).

(** A text event met with a frame on top, step by step: the text is
    stored in a leaf, and for an HTML node or a code block with the option
    [tagInfo] the inspector reads the text just stored, or the [info]
    field, and its tag object is copied into the frame. *)
Lemma ontext_unfold (t : string) (st : state) (head : ref) (json : gmap string value) :
  Stack.peek st = Some head →
  heap st !! head = Some json →
  let t' := trimmed trim options t in
  let json1 := if isLeafNode' json then <["text" := VStr t']> json else json in
  let input := if isHtmlNode' json then Some (VStr t') else json !! "info" in
  ontext' t st =
    if (0 <? String.length t')%nat then
      if (isHtmlNode' json || isCodeBlockNode' json) && option_set options tagInfo then
        match parseHtmlBlock' input with
        | Return (Some tagInfo) =>
            tag ← make_tag COMMON_NS_PREFIX tagInfo;
            Return (store head (<["tag" := VTag tag]> json1) st)
        | _ => Return (store head json1 st)
        end
      else Return (store head json1 st)
    else Return st.
Proof.
  intros Hpeek Hjson t' json1 input. unfold ontext, deref.
  fold (trimmed trim options t). fold t'. rewrite Hpeek, Hjson.
  destruct (0 <? String.length t')%nat; [|reflexivity].
  cbn [mbind outcome_bind bind]. fold json1.
  assert (Hhtml : isHtmlNode' json1 = isHtmlNode' json).
  { subst json1. destruct (isLeafNode' json); [|reflexivity].
    unfold isHtmlNode. by rewrite !class_is_insert by discriminate. }
  assert (Hcode : isCodeBlockNode' json1 = isCodeBlockNode' json).
  { subst json1. destruct (isLeafNode' json); [|reflexivity].
    unfold isCodeBlockNode. by rewrite !class_is_insert by discriminate. }
  assert (Hinput : (if isHtmlNode' json1 then json1 !! "text" else json1 !! "info")
                   = input).
  { rewrite Hhtml. subst input json1.
    destruct (isHtmlNode' json) eqn:His.
    - rewrite (html_is_leaf COMMON_NS_PREFIX json) by by rewrite His.
      by rewrite lookup_insert_eq.
    - destruct (isLeafNode' json); [|reflexivity].
      by rewrite lookup_insert_ne by discriminate. }
  rewrite Hinput, Hhtml, Hcode.
  destruct (isHtmlNode' json || isCodeBlockNode' json); [|reflexivity].
  destruct (option_set options tagInfo); [|reflexivity]. cbn [andb].
  destruct (parseHtmlBlock_total toLowerCase parseFromString input) as [[tagInfo|] ->];
    [|reflexivity].
  cbn [mbind outcome_bind bind].
  by destruct (make_tag COMMON_NS_PREFIX tagInfo).
Qed.

(** What a text event does to the top frame when the input of the
    inspector is safe. *)
Lemma ontext_top (t : string) (st : state) (head : ref) (json : gmap string value) :
  Stack.peek st = Some head →
  heap st !! head = Some json →
  let t' := trimmed trim options t in
  input_safe' (Some (VStr t')) = true →
  input_safe' (json !! "info") = true →
  ∃ json',
    ontext' t st = Return (if (0 <? String.length t')%nat then store head json' st else st) ∧
    (∀ k, k ≠ "text" → k ≠ "tag" → json' !! k = json !! k) ∧
    (isLeafNode' json = true → json' !! "text" = Some (VStr t')).
Proof.
  intros Hpeek Hjson t' Htext Hinfo.
  rewrite (ontext_unfold t st head json Hpeek Hjson). fold t'.
  set (json1 := if isLeafNode' json then <["text" := VStr t']> json else json).
  set (input := if isHtmlNode' json then Some (VStr t') else json !! "info").
  assert (Hsafe : input_safe' input = true) by (subst input; by destruct (isHtmlNode' json)).
  assert (H1 : ∀ k, k ≠ "text" → json1 !! k = json !! k).
  { intros k Hk. subst json1. destruct (isLeafNode' json); [|reflexivity].
    by rewrite lookup_insert_ne. }
  assert (H2 : isLeafNode' json = true → json1 !! "text" = Some (VStr t')).
  { intros Hleaf. subst json1. rewrite Hleaf. by rewrite lookup_insert_eq. }
  assert (Hplain : ∃ json',
             Return (if (0 <? String.length t')%nat then store head json1 st else st)
             = Return (if (0 <? String.length t')%nat then store head json' st else st) ∧
             (∀ k, k ≠ "text" → k ≠ "tag" → json' !! k = json !! k) ∧
             (isLeafNode' json = true → json' !! "text" = Some (VStr t'))).
  { exists json1. split; [reflexivity|]. split; [|done]. intros k Hk _. by apply H1. }
  destruct (0 <? String.length t')%nat; [|exact Hplain].
  destruct ((isHtmlNode' json || isCodeBlockNode' json) && option_set options tagInfo)
    eqn:Hkind; [|exact Hplain].
  apply andb_prop in Hkind as [_ Hon].
  unfold input_safe, shadows_hasOwnProperty in Hsafe. rewrite Hon in Hsafe.
  cbn [negb orb] in Hsafe.
  destruct (parseHtmlBlock' input) as [[tagInfo|]|e]; [|exact Hplain..].
  rewrite make_tag_spec.
  destruct (lookup_property "hasOwnProperty" (tag_attributes tagInfo)) as [v|] eqn:Hown.
  { rewrite bool_decide_eq_true_2 in Hsafe by by eexists. discriminate Hsafe. }
  cbn [mbind outcome_bind bind]. eexists. split; [reflexivity|]. split.
  - intros k Hk Hk'. rewrite lookup_insert_ne by done. by apply H1.
  - intros Hleaf. rewrite lookup_insert_ne by done. by apply H2.
Qed.


(** ** Frames of the stack *)

Lemma evolves_refl (st : state) : evolves st st.
Proof. intros r json H. by exists json. Qed.

Lemma evolves_trans (st1 st2 st3 : state) :
  evolves st1 st2 → evolves st2 st3 → evolves st1 st3.
Proof.
  intros H12 H23 r json H.
  destruct (H12 r json H) as (json2 & H2 & Hsame2).
  destruct (H23 r json2 H2) as (json3 & H3 & Hsame3).
  exists json3. split; [done|]. intros k Hk.
  by rewrite (Hsame3 k Hk), (Hsame2 k Hk).
Qed.

Lemma evolves_store (st : state) (r : ref) (json json' : gmap string value) :
  heap st !! r = Some json →
  (∀ k, ¬ assigned_later k → json' !! k = json !! k) →
  evolves st (store r json' st).
Proof.
  intros Hr Hsame x o Hx. cbn. destruct (decide (r = x)) as [->|Hne].
  - exists json'. split.
    + apply list_lookup_insert_eq. by eapply lookup_lt_Some.
    + rewrite Hr in Hx. by injection Hx as <-.
  - exists o. split; [|done]. by rewrite list_lookup_insert_ne.
Qed.

Lemma insert_assigned_later (k : string) (v : value) (json : gmap string value) :
  assigned_later k →
  ∀ k', ¬ assigned_later k' → <[k := v]> json !! k' = json !! k'.
Proof. intros Hk k' Hk'. rewrite lookup_insert_ne; [done|]. by intros <-. Qed.

Lemma store_frames_ok (st : state) (r : ref) (json : gmap string value) :
  frames_ok st → nodes_ok json → frames_ok (store r json st).
Proof.
  unfold frames_ok. cbn. intros Hst Hjson.
  eapply Forall_impl; [exact Hst|]. cbn. intros x (o & Ho & Hok).
  destruct (decide (r = x)) as [->|Hne].
  - exists json. split; [|done].
    apply list_lookup_insert_eq. by eapply lookup_lt_Some.
  - exists o. split; [|done]. by rewrite list_lookup_insert_ne.
Qed.

Lemma nodes_ok_same (json json' : gmap string value) :
  json' !! "nodes" = json !! "nodes" → nodes_ok json → nodes_ok json'.
Proof. unfold nodes_ok. by intros ->. Qed.

Lemma frames_ok_peek (st : state) (head : ref) :
  frames_ok st → Stack.peek st = Some head →
  ∃ json, heap st !! head = Some json ∧ nodes_ok json.
Proof.
  unfold frames_ok, Stack.peek. destruct (stack st) as [|r s]; [done|].
  intros H [= <-]. by apply Forall_cons in H as [H _].
Qed.

Lemma frames_safe_evolves (st st' : state) (l : list ref) :
  evolves st st' →
  Forall (λ r, ∃ json, heap st !! r = Some json ∧
                       input_safe' (json !! "info") = true) l →
  Forall (λ r, ∃ json, heap st' !! r = Some json ∧
                       input_safe' (json !! "info") = true) l.
Proof.
  intros Hev H. eapply Forall_impl; [exact H|]. cbn. intros r (json & Hr & Hsafe).
  destruct (Hev r json Hr) as (json' & Hr' & Hsame).
  exists json'. split; [exact Hr'|]. rewrite Hsame; [exact Hsafe|].
  unfold assigned_later. by intros [Hk|[Hk|Hk]].
Qed.

Lemma frames_safe_peek (st : state) (head : ref) (json : gmap string value) :
  frames_safe' st → Stack.peek st = Some head → heap st !! head = Some json →
  input_safe' (json !! "info") = true.
Proof.
  unfold frames_safe, Stack.peek. destruct (stack st) as [|r s]; [done|].
  intros H [= <-] Hjson. apply Forall_cons in H as [(json' & Hjson' & H) _].
  rewrite Hjson in Hjson'. by injection Hjson' as <-.
Qed.

(** A text event with a safe text returns and leaves the stack as it
    is. *)
Lemma ontext_frames (t : string) (st : state) :
  frames_ok st →
  frames_safe' st →
  input_safe' (Some (VStr (trimmed trim options t))) = true →
  ∃ st', ontext' t st = Return st' ∧ stack st' = stack st ∧ frames_ok st' ∧
         frames_safe' st' ∧ evolves st st'.
Proof.
  intros Hst Hsafe Ht. destruct (Stack.peek st) as [head|] eqn:Hpeek.
  - destruct (frames_ok_peek st head Hst Hpeek) as (json & Hjson & Hok).
    pose proof (frames_safe_peek st head json Hsafe Hpeek Hjson) as Hinfo.
    destruct (ontext_top t st head json Hpeek Hjson Ht Hinfo) as (json' & -> & Hsame & _).
    destruct (0 <? String.length _)%nat.
    2:{ exists st. repeat split; [done..|apply evolves_refl]. }
    assert (Hev : evolves st (store head json' st)).
    { apply (evolves_store st head json json' Hjson).
      intros k Hk. apply Hsame; intros ->; apply Hk; unfold assigned_later; auto. }
    exists (store head json' st). split; [done|]. split; [done|]. split; [|split].
    + apply store_frames_ok; [done|].
      apply (nodes_ok_same json); [|done]. by apply Hsame.
    + by apply (frames_safe_evolves st).
    + exact Hev.
  - exists st. unfold ontext. rewrite Hpeek.
    repeat split; [done..|apply evolves_refl].
Qed.

Lemma hoist_lookup (attributes : gmap string string) (newNode : gmap string value)
    (k : string) :
  hoist attributes newNode !! k =
    match attributes !! k with
    | Some v => Some (VStr v)
    | None => newNode !! k
    end.
Proof.
  unfold hoist. revert k.
  apply (map_fold_weak_ind (λ r m, ∀ k, r !! k = match m !! k with
                                                   | Some v => Some (VStr v)
                                                   | None => newNode !! k
                                                   end)).
  - intros k. by rewrite lookup_empty.
  - intros i x m r Hi IH k. destruct (decide (i = k)) as [->|Hne].
    + by rewrite !lookup_insert_eq.
    + rewrite !lookup_insert_ne by done. apply IH.
Qed.

Local Abbreviation newNode_of' := (newNode_of COMMON_NS_PREFIX toUpperCase options).

Lemma newNode_nodes_ok (name : string) (attributes : gmap string string)
    (pos : Position) :
  match attributes !! "nodes" with
  | Some v => String.eqb v EmptyString
  | None => true
  end = true →
  nodes_ok (newNode_of' name attributes pos).
Proof.
  intros Hattr. unfold nodes_ok, newNode_of. rewrite hoist_lookup.
  destruct (attributes !! "nodes") as [v|].
  - apply String.eqb_eq in Hattr as ->. discriminate.
  - destruct (option_set options enableSourceLocation); discriminate.
Qed.

(** An open tag returns and pushes the reference of the object it
    allocates. *)
Lemma onopentag_frames (name : string) (attributes : gmap string string)
    (pos : Position) (st : state) :
  frames_ok st →
  match attributes !! "nodes" with
  | Some v => String.eqb v EmptyString
  | None => true
  end = true →
  ∃ st', onopentag' name attributes pos st = Return st' ∧
         stack st' = length (heap st) :: stack st ∧
         frames_ok st' ∧
         evolves st st' ∧
         heap st' !! length (heap st) = Some (newNode_of' name attributes pos).
Proof.
  intros Hst Hattr.
  pose proof (newNode_nodes_ok name attributes pos Hattr) as Hnew.
  unfold onopentag. fold (newNode_of' name attributes pos).
  set (newNode := newNode_of' name attributes pos) in *.
  destruct (Stack.peek st) as [head|] eqn:Hpeek.
  - destruct (frames_ok_peek st head Hst Hpeek) as (json & Hjson & Hok).
    unfold deref. rewrite Hjson. cbn [mbind outcome_bind bind].
    set (st1 := if truthy (json !! "nodes") then st
                else store head (<["nodes" := VArr []]> json) st).
    assert (H1 : stack st1 = stack st ∧ length (heap st1) = length (heap st) ∧
                 frames_ok st1 ∧ evolves st st1 ∧
                 ∃ json1 l, heap st1 !! head = Some json1 ∧
                            json1 !! "nodes" = Some (VArr l)).
    { subst st1. destruct (truthy (json !! "nodes")) eqn:Htruthy.
      - repeat split; [done|apply evolves_refl|].
        destruct (Hok Htruthy) as [l Hl]. by exists json, l.
      - split; [done|]. split; [cbn; by rewrite length_insert|]. split; [|split].
        + apply store_frames_ok; [done|]. intros _. exists [].
          by rewrite lookup_insert_eq.
        + apply (evolves_store st head json _ Hjson).
          apply insert_assigned_later. unfold assigned_later. auto.
        + exists (<["nodes" := VArr []]> json), []. split.
          * cbn. apply list_lookup_insert_eq. by eapply lookup_lt_Some.
          * by rewrite lookup_insert_eq. }
    clearbody st1.
    destruct H1 as (Hstack & Hlen & Hst1 & Hev1 & json1 & l & Hjson1 & Hl).
    assert (Hlt : head < length (heap st1)) by by eapply lookup_lt_Some.
    unfold alloc, Stack.push, Stack.peek, deref. cbn.
    unfold Stack.peek in Hpeek. rewrite Hstack.
    destruct (stack st) as [|head' s] eqn:Hs; [done|]. cbn in Hpeek.
    injection Hpeek as ->. cbn.
    rewrite lookup_app_l by done. rewrite Hjson1. cbn. rewrite Hl.
    eexists. split; [reflexivity|]. cbn. split; [by rewrite Hlen|].
    assert (Hnew_at : <[head := <["nodes" := VArr (l ++ [length (heap st1)])]> json1]>
                        (heap st1 ++ [newNode]) !! length (heap st1) = Some newNode).
    { rewrite list_lookup_insert_ne by lia.
      by rewrite lookup_app_r, Nat.sub_diag by lia. }
    split; [|split; [|by rewrite <- Hlen]].
    2:{ apply (evolves_trans st st1); [done|].
        intros x o Hx. cbn. destruct (decide (head = x)) as [->|Hne].
        - eexists. split.
          + apply list_lookup_insert_eq. rewrite length_app. lia.
          + rewrite Hjson1 in Hx. injection Hx as <-.
            apply insert_assigned_later. unfold assigned_later. auto.
        - exists o. split; [|done]. rewrite list_lookup_insert_ne by done.
          rewrite lookup_app_l; [done|]. by eapply lookup_lt_Some. }
    unfold frames_ok in *. cbn. rewrite Hstack in Hst1.
    assert (Hothers : ∀ x, (∃ o, heap st1 !! x = Some o ∧ nodes_ok o) →
              ∃ o, <[head := <["nodes" := VArr (l ++ [length (heap st1)])]> json1]>
                     (heap st1 ++ [newNode]) !! x = Some o ∧ nodes_ok o).
    { intros x (o & Ho & Hoko). destruct (decide (head = x)) as [->|Hne].
      - eexists. split.
        + apply list_lookup_insert_eq. rewrite length_app. lia.
        + intros _. eexists. by rewrite lookup_insert_eq.
      - exists o. split; [|done]. rewrite list_lookup_insert_ne by done.
        rewrite lookup_app_l; [done|]. by eapply lookup_lt_Some. }
    apply Forall_cons. split.
    + by exists newNode.
    + eapply Forall_impl; [exact Hst1|]. exact Hothers.
  - unfold alloc, Stack.push, Stack.peek in *. cbn.
    destruct (stack st) as [|? ?] eqn:Hs; [|done]. cbn.
    eexists. split; [reflexivity|]. cbn. split; [done|].
    assert (Hnew_at : (heap st ++ [newNode]) !! length (heap st) = Some newNode).
    { by rewrite lookup_app_r, Nat.sub_diag by lia. }
    split; [|split; [|done]].
    + unfold frames_ok. cbn. apply Forall_cons. split; [|constructor].
      by exists newNode.
    + intros x o Hx. exists o. split; [|done]. cbn.
      rewrite lookup_app_l; [done|]. by eapply lookup_lt_Some.
Qed.

(** A close tag keeps the heap. *)
Lemma pop_evolves (st : state) : evolves st (Stack.pop st).
Proof. intros r json H. by exists json. Qed.

(** A close tag pops the stack, the one of the document excepted. *)
Lemma onclosetag_pops (name : string) (st : state) :
  onclosetag name st =
    Return (if decide (name = "document") then st else Stack.pop st).
Proof.
  unfold onclosetag.
  destruct (String.eqb_spec name "document"); by case_decide.
Qed.

(** ** Well-formed streams *)

Lemma last_cons_nonempty {A} (x : A) (l : list A) :
  l ≠ [] → last (x :: l) = last l.
Proof. destruct l; [done|]. intros _. apply last_cons_cons. Qed.

(** The [info] field of a new node is the attribute of that name. *)
Lemma newNode_info (name : string) (attributes : gmap string string) (pos : Position) :
  newNode_of' name attributes pos !! "info" = VStr <$> attributes !! "info".
Proof.
  unfold newNode_of. rewrite hoist_lookup.
  destruct (attributes !! "info"); [reflexivity|].
  by destruct (option_set options enableSourceLocation).
Qed.

(** An open tag with a safe [info] keeps the frames safe. *)
Lemma onopentag_safe (name : string) (attributes : gmap string string)
    (pos : Position) (st st' : state) :
  frames_safe' st →
  input_safe' (VStr <$> attributes !! "info") = true →
  stack st' = length (heap st) :: stack st →
  evolves st st' →
  heap st' !! length (heap st) = Some (newNode_of' name attributes pos) →
  frames_safe' st'.
Proof.
  intros Hsafe Hinfo Hstack Hev Hnew. unfold frames_safe. rewrite Hstack.
  apply Forall_cons. split.
  - eexists. split; [exact Hnew|]. by rewrite newNode_info.
  - by apply (frames_safe_evolves st).
Qed.

Lemma pop_safe (st : state) : frames_safe' st → frames_safe' (Stack.pop st).
Proof.
  unfold frames_safe. cbn. destruct (stack st) as [|r s]; [done|].
  cbn. by intros [_ H]%Forall_cons.
Qed.

(** Inside the root: with the names of the open elements in [opened],
    the root last, and as many frames on the stack, the run of the rest
    of the stream returns with the bottom frame alone on the stack. *)
Lemma run_nested (events : list event) :
  ∀ (inner : list string) (st : state),
    nested (inner ++ ["document"]) events = true →
    Forall (λ n, n ≠ "document") inner →
    forallb (λ e, negb (opens_document e)) events = true →
    no_nodes_attribute events = true →
    tags_safe' events = true →
    length (stack st) = S (length inner) →
    frames_ok st →
    frames_safe' st →
    ∃ st' bottom,
      run' events st = Return st' ∧
      last (stack st) = Some bottom ∧
      stack st' = [bottom] ∧
      evolves st st'.
Proof.
  induction events as [|e events IH];
    intros inner st Hnested Hinner Hopen Hattr Htags Hlen Hst Hsafe.
  { destruct inner; discriminate Hnested. }
  cbn [forallb] in Hopen. apply andb_prop in Hopen as [Hopen_e Hopen].
  unfold no_nodes_attribute in Hattr. cbn [forallb] in Hattr.
  apply andb_prop in Hattr as [Hattr_e Hattr].
  unfold tags_safe in Htags. cbn [forallb] in Htags.
  apply andb_prop in Htags as [Htags_e Htags].
  cbn [run]. destruct e as [name attributes pos|t|name]; cbn [handle].
  - (* open *)
    assert (Hnested' : nested ((name :: inner) ++ ["document"]) events = true).
    { destruct inner; exact Hnested. }
    destruct (onopentag_frames name attributes pos st Hst Hattr_e)
      as (st1 & -> & Hstack1 & Hst1 & Hev1 & Hnew).
    pose proof (onopentag_safe name attributes pos st st1 Hsafe Htags_e Hstack1 Hev1 Hnew)
      as Hsafe1.
    cbn [mbind outcome_bind bind].
    destruct (IH (name :: inner) st1 Hnested')
      as (st' & bottom & Hrun & Hlast & Hstack' & Hev');
      [| done | done | done | by rewrite Hstack1; cbn; rewrite Hlen | done | done |].
    { apply Forall_cons. split; [|done]. cbn in Hopen_e.
      intros ->. discriminate Hopen_e. }
    exists st', bottom. split; [done|].
    split; [|split; [done|by apply (evolves_trans st st1)]].
    rewrite Hstack1 in Hlast. rewrite last_cons_nonempty in Hlast; [done|].
    intros Hnil. by rewrite Hnil in Hlen.
  - (* text *)
    assert (Hnested' : nested (inner ++ ["document"]) events = true).
    { destruct inner; exact Hnested. }
    destruct (ontext_frames t st Hst Hsafe Htags_e)
      as (st1 & -> & Hstack1 & Hst1 & Hsafe1 & Hev1).
    cbn [mbind outcome_bind bind].
    destruct (IH inner st1 Hnested') as (st' & bottom & Hrun & Hlast & Hstack' & Hev');
      [done | done | done | done | by rewrite Hstack1 | done | done |].
    exists st', bottom. rewrite <- Hstack1.
    split; [done|]. split; [done|]. split; [done|].
    by apply (evolves_trans st st1).
  - (* close *)
    rewrite onclosetag_pops. cbn [mbind outcome_bind bind].
    destruct inner as [|top inner].
    + cbn in Hnested. apply andb_prop in Hnested as [Hname Hevents].
      apply String.eqb_eq in Hname as ->.
      destruct events; [|discriminate Hevents].
      rewrite decide_True by done. cbn.
      destruct (stack st) as [|bottom [|? ?]] eqn:Hs; try discriminate Hlen.
      exists st, bottom. repeat split; [done|apply evolves_refl].
    + assert (Hnested' : String.eqb name top
                         && nested (inner ++ ["document"]) events = true).
      { destruct inner; exact Hnested. }
      apply andb_prop in Hnested' as [Hname Hnested'].
      apply String.eqb_eq in Hname as ->.
      apply Forall_cons in Hinner as [Htop Hinner].
      rewrite decide_False by done.
      destruct (stack st) as [|r s] eqn:Hs; [discriminate Hlen|].
      destruct (IH inner (Stack.pop st) Hnested')
        as (st' & bottom & Hrun & Hlast & Hstack' & Hev');
        [done | done | done | done | | | by apply pop_safe |].
      * cbn. rewrite Hs. cbn. cbn in Hlen. lia.
      * unfold frames_ok in *. cbn. rewrite Hs in *. cbn.
        by apply Forall_cons in Hst as [_ Hst].
      * exists st', bottom. split; [done|].
        split; [|split; [done|]].
        2:{ apply (evolves_trans st (Stack.pop st)); [apply pop_evolves|done]. }
        cbn in Hlast. rewrite Hs in Hlast. cbn in Hlast.
        rewrite last_cons_nonempty; [done|].
        intros ->. cbn in Hlen. lia.
Qed.

(** C4. A close event returns and pops the stack, the one that closes
    an element named [document] excepted.  For a well-formed stream in
    which no element below the root is named [document], no open tag has
    a non-empty attribute named [nodes], and, when the option [tagInfo]
    is set, no text and no [info] attribute gives the HTML inspector a
    tag with an attribute named [hasOwnProperty], the run of the handlers
    returns with exactly one frame on the stack, the node of the document
    open tag, and [fromMarkdown] returns that node: the object created
    for the first event, to which only children, text or tag were
    assigned since. *)
Theorem well_formed_leaves_root (events : list event) :
  well_formed events = true →
  root_only_document events = true →
  no_nodes_attribute events = true →
  tags_safe' events = true →
  (∀ name st, onclosetag name st =
                Return (if decide (name = "document") then st else Stack.pop st)) ∧
  ∃ st, run' events empty_state = Return st ∧
        stack st = [root] ∧
        fromMarkdown' events = Return (Some root, heap st) ∧
        ∃ attributes pos rest json,
          events = OpenTag "document" attributes pos :: rest ∧
          heap st !! root = Some json ∧
          ∀ k, ¬ assigned_later k →
               json !! k = newNode_of' "document" attributes pos !! k.
Proof.
  intros Hwf Hroot Hattr Htags. split; [apply onclosetag_pops|].
  destruct events as [|[name attributes pos|t|name] events]; try discriminate Hwf.
  cbn in Hwf. apply andb_prop in Hwf as [Hname Hnested].
  apply String.eqb_eq in Hname as ->.
  unfold root_only_document in Hroot. cbn [tail] in Hroot.
  pose proof Hattr as Hattr'. unfold no_nodes_attribute in Hattr'.
  cbn [forallb] in Hattr'. apply andb_prop in Hattr' as [Hattr_e Hattr'].
  unfold tags_safe in Htags. cbn [forallb] in Htags.
  apply andb_prop in Htags as [Htags_e Htags].
  destruct (onopentag_frames "document" attributes pos empty_state)
    as (st1 & Hopen & Hstack1 & Hst1 & Hev1 & Hnew); [constructor | done |].
  assert (Hsafe1 : frames_safe' st1).
  { apply (onopentag_safe "document" attributes pos empty_state st1); try done.
    constructor. }
  destruct (run_nested events [] st1)
    as (st' & bottom & Hrun & Hlast & Hstack' & Hev);
    [done | constructor | done | done | done | by rewrite Hstack1 | done | done |].
  rewrite Hstack1 in Hlast. cbn in Hlast. injection Hlast as <-.
  exists st'. unfold fromMarkdown. cbn [run handle]. rewrite Hopen.
  cbn [mbind outcome_bind bind]. rewrite Hrun. cbn [mbind outcome_bind bind].
  split; [done|]. split; [done|].
  split; [unfold Stack.peek; by rewrite Hstack'|].
  destruct (Hev root _ Hnew) as (json & Hjson & Hsame).
  by exists attributes, pos, events, json.
Qed.

End Handlers.

(** ** Runs on the sample streams *)

Example sample_events_tree :
  fromMarkdown "org.accordproject.commonmark." sample_trim sample_toUpperCase
    sample_toLowerCase sample_parser None sample_events
  = Return (Some root,
            [ <["nodes" := VArr [1]]>
                (<["xmlns" := VStr "http://commonmark.org/xml/1.0"]>
                   {[ "$class" := VStr "org.accordproject.commonmark.Document" ]});
              <["nodes" := VArr [2]]>
                {[ "$class" := VStr "org.accordproject.commonmark.Paragraph" ]};
              <["text" := VStr "hi"]>
                {[ "$class" := VStr "org.accordproject.commonmark.Text" ]} ]).
Proof. vm_compute. reflexivity. Qed.



Lemma well_formed_leaves_root_witness :
  ∃ st, run "org.accordproject.commonmark." sample_trim sample_toUpperCase
          sample_toLowerCase sample_parser tagInfo_options html_events empty_state
        = Return st ∧
        stack st = [root] ∧
        fromMarkdown "org.accordproject.commonmark." sample_trim sample_toUpperCase
          sample_toLowerCase sample_parser tagInfo_options html_events
        = Return (Some root, heap st).
Proof.
  destruct (well_formed_leaves_root "org.accordproject.commonmark." sample_trim
              sample_toUpperCase sample_toLowerCase sample_parser tagInfo_options
              html_events) as (_ & st & Hrun & Hstack & Hresult & _);
    [vm_compute; reflexivity ..|].
  exists st. split; [exact Hrun|]. split; [exact Hstack|exact Hresult].
Defined.

(** C4, as stated, fails: the stream that nests a second [document]
    element is well formed, and at its end the stack holds two frames,
    the inner node on top; the well-formed stream whose root carries the
    attribute [nodes] makes the push of its first child throw; and with
    the option [tagInfo] the well-formed stream with the HTML block
    [<a hasOwnProperty='x'>] ends with a TypeError. *)
Lemma nested_document_leaves_two_frames :
  well_formed nested_document_events = true ∧
  (∃ st, run "org.accordproject.commonmark." sample_trim sample_toUpperCase
           sample_toLowerCase sample_parser None
           nested_document_events empty_state = Return st ∧
         stack st = [1; root] ∧
         Stack.peek st = Some 1) ∧
  well_formed nodes_attribute_events = true ∧
  run "org.accordproject.commonmark." sample_trim sample_toUpperCase
    sample_toLowerCase sample_parser None
    nodes_attribute_events empty_state = Throw TypeError ∧
  well_formed hasOwnProperty_events = true ∧
  root_only_document hasOwnProperty_events = true ∧
  no_nodes_attribute hasOwnProperty_events = true ∧
  run "org.accordproject.commonmark." sample_trim sample_toUpperCase
    sample_toLowerCase sample_parser tagInfo_options
    hasOwnProperty_events empty_state = Throw TypeError.
Proof.
  split; [reflexivity|]. split.
  - eexists. split; [vm_compute; reflexivity|]. split; reflexivity.
  - split; [reflexivity|]. split; [vm_compute; reflexivity|].
    split; [reflexivity|]. split; [reflexivity|]. split; vm_compute; reflexivity.
Qed.

(** * Further properties of the mapper *)

(** Induction on editor trees, with the property known of the children. *)
Lemma slate_node_ind (P : Slate.node → Prop) :
  (∀ object type data nodes text marks,
     Forall P (default [] nodes) →
     P (Slate.Node object type data nodes text marks)) →
  ∀ node, P node.
Proof.
  intros H. fix IH 1. intros [object type data nodes text marks].
  apply H. destruct nodes as [l|]; [|constructor]. cbn.
  induction l as [|n l IHl]; constructor; [apply IH|exact IHl].
Qed.

(** A list whose nodes all convert converts to a list of the same
    length. *)
Lemma Forall_returns_Forall2 (nodes : list Slate.node) :
  Forall (λ n, returns (convert n)) nodes →
  ∃ cs, Forall2 (λ n c, convert n = Return c) nodes cs.
Proof.
  induction 1 as [|n nodes [c Hc] _ [cs Hcs]].
  - exists []. constructor.
  - exists (c :: cs). by constructor.
Qed.

(** An element whose created object has an empty [nodes] array receives
    its converted children there. *)
Lemma convert_container (node : Slate.node) (result : Dom.node) (cs : list Dom.node) :
  create node = Return result →
  Dom.nodes result = Some [] →
  Forall2 (λ child c, convert child = Return c) (default [] (Slate.nodes node)) cs →
  convert node = Return (with_children result cs).
Proof.
  intros Hcreate Hnodes Hcs. rewrite convert_unfold, Hcreate. cbn. rewrite Hnodes.
  destruct (Slate.nodes node) as [children|]; cbn in Hcs.
  - by rewrite (_recursive_Forall2 children cs Hcs result [] Hnodes).
  - apply Forall2_nil_inv_l in Hcs as ->. unfold with_children.
    rewrite <- Hnodes. by destruct result.
Qed.

(** An element whose created object has no [nodes] array is finished as
    created. *)
Lemma convert_leaf (node : Slate.node) (result : Dom.node) :
  create node = Return result →
  Dom.nodes result = None →
  convert node = Return result.
Proof.
  intros Hcreate Hnodes. rewrite convert_unfold, Hcreate. cbn. rewrite Hnodes.
  by destruct (Slate.nodes node).
Qed.

(** X1. The six heading types map to a Heading whose level is the string
    ["1"] to ["6"] of the type, with the converted children of the element
    as its children. *)
Theorem heading_level_fidelity (node : Slate.node) (ty lv : string)
    (cs : list Dom.node) :
  Slate.object node ≠ Some "text" →
  Slate.type node = Some ty →
  (ty, lv) ∈ heading_types →
  Forall2 (λ child c, convert child = Return c) (default [] (Slate.nodes node)) cs →
  convert node =
    Return (Dom.Node "org.accordproject.commonmark.Heading"
              {[ "level" := JStr lv ]} (Some cs)).
Proof.
  intros Hobj Hty Hin Hcs.
  assert (Hcreate : create node = Return (heading lv)).
  { rewrite (create_element node ty Hobj Hty).
    unfold heading_types in Hin.
    repeat (apply elem_of_cons in Hin as [[= -> ->]|Hin]; [reflexivity|]).
    by apply elem_of_nil in Hin. }
  by rewrite (convert_container node (heading lv) cs Hcreate eq_refl Hcs).
Qed.

Lemma heading_level_fidelity_witness :
  convert (element "heading_three" [text_node "t" ["italic"]])
  = Return (Dom.Node "org.accordproject.commonmark.Heading" {[ "level" := JStr "3" ]}
              (Some [Emph_of [Text_leaf (JStr "t")]])).
Proof.
  apply (heading_level_fidelity (element "heading_three" [text_node "t" ["italic"]])
           "heading_three" "3").
  - discriminate.
  - reflexivity.
  - repeat constructor.
  - repeat constructor.
Defined.

(** X2. The two list types map to a List whose [type] is [ordered] for
    [ol_list] and [bullet] for [ul_list], whose [delimiter], [start] and
    [tight] are the fields of the same name of [node.data] (undefined when
    the bag lacks one), and whose children are the converted children. *)
Theorem list_type_and_data (node : Slate.node) (ty : string)
    (d : gmap string jsval) (cs : list Dom.node) :
  Slate.object node ≠ Some "text" →
  Slate.type node = Some ty →
  ty = "ol_list" ∨ ty = "ul_list" →
  Slate.data node = Some d →
  Forall2 (λ child c, convert child = Return c) (default [] (Slate.nodes node)) cs →
  ∃ result,
    convert node = Return result ∧
    Dom.class result = "org.accordproject.commonmark.List" ∧
    prop (Dom.fields result) "type"
    = JStr (if String.eqb ty "ol_list" then "ordered" else "bullet") ∧
    prop (Dom.fields result) "delimiter" = prop d "delimiter" ∧
    prop (Dom.fields result) "start" = prop d "start" ∧
    prop (Dom.fields result) "tight" = prop d "tight" ∧
    Dom.nodes result = Some cs.
Proof.
  intros Hobj Hty Hlist Hd Hcs.
  pose proof (create_element node ty Hobj Hty) as Hcreate.
  destruct Hlist as [-> | ->]; unfold switch_type, data_of in Hcreate;
    rewrite Hd in Hcreate; cbn in Hcreate;
    (eexists; split;
     [exact (convert_container node _ cs Hcreate eq_refl Hcs)|by repeat split]).
Qed.

Lemma list_type_and_data_witness :
  ∃ result,
    convert sample_list = Return result ∧
    Dom.class result = "org.accordproject.commonmark.List" ∧
    prop (Dom.fields result) "type" = JStr "bullet" ∧
    prop (Dom.fields result) "delimiter" = JUndefined ∧
    prop (Dom.fields result) "start" = JUndefined ∧
    prop (Dom.fields result) "tight" = JBool true ∧
    Dom.nodes result = Some [Item_of [Paragraph_of []]].
Proof.
  refine (list_type_and_data sample_list "ul_list" {[ "tight" := JBool true ]}
            [Item_of [Paragraph_of []]] _ eq_refl _ eq_refl _).
  - discriminate.
  - right. reflexivity.
  - repeat constructor.
Defined.

(** X3. A [link] maps to a Link whose [destination] is [node.data.href]
    and whose [title] is always the empty string, whatever title the data
    carries; its children are the converted children. *)
Theorem link_destination_and_title (node : Slate.node) (d : gmap string jsval)
    (cs : list Dom.node) :
  Slate.object node ≠ Some "text" →
  Slate.type node = Some "link" →
  Slate.data node = Some d →
  Forall2 (λ child c, convert child = Return c) (default [] (Slate.nodes node)) cs →
  ∃ result,
    convert node = Return result ∧
    Dom.class result = "org.accordproject.commonmark.Link" ∧
    prop (Dom.fields result) "destination" = prop d "href" ∧
    prop (Dom.fields result) "title" = JStr EmptyString ∧
    Dom.nodes result = Some cs.
Proof.
  intros Hobj Hty Hd Hcs.
  pose proof (create_element node "link" Hobj Hty) as Hcreate.
  unfold switch_type, data_of in Hcreate. rewrite Hd in Hcreate. cbn in Hcreate.
  eexists. split; [exact (convert_container node _ cs Hcreate eq_refl Hcs)|].
  by repeat split.
Qed.

Lemma link_destination_and_title_witness :
  ∃ result,
    convert sample_link = Return result ∧
    Dom.class result = "org.accordproject.commonmark.Link" ∧
    prop (Dom.fields result) "destination" = JStr "http://a.b" ∧
    prop (Dom.fields result) "title" = JStr EmptyString ∧
    Dom.nodes result = Some [Text_leaf (JStr "x")].
Proof.
  refine (link_destination_and_title sample_link
            (<["href" := JStr "http://a.b"]> {[ "title" := JStr "T" ]})
            [Text_leaf (JStr "x")] _ eq_refl eq_refl _).
  - discriminate.
  - repeat constructor.
Defined.

(** X4. The types [clause], [variable] and [computed] map to Clause,
    Variable and ComputedVariable of the ciceromark namespace, with the
    fields [clauseid], [src], [clauseText], respectively [id], [value],
    respectively [value], read from [node.data], and the converted
    children. *)
Theorem ciceromark_fields_from_data (node : Slate.node) (d : gmap string jsval)
    (cs : list Dom.node) :
  Slate.object node ≠ Some "text" →
  Slate.data node = Some d →
  Forall2 (λ child c, convert child = Return c) (default [] (Slate.nodes node)) cs →
  (Slate.type node = Some "clause" →
   ∃ result,
     convert node = Return result ∧
     Dom.class result = "org.accordproject.ciceromark.Clause" ∧
     prop (Dom.fields result) "clauseid" = prop d "clauseid" ∧
     prop (Dom.fields result) "src" = prop d "src" ∧
     prop (Dom.fields result) "clauseText" = prop d "clauseText" ∧
     Dom.nodes result = Some cs) ∧
  (Slate.type node = Some "variable" →
   ∃ result,
     convert node = Return result ∧
     Dom.class result = "org.accordproject.ciceromark.Variable" ∧
     prop (Dom.fields result) "id" = prop d "id" ∧
     prop (Dom.fields result) "value" = prop d "value" ∧
     Dom.nodes result = Some cs) ∧
  (Slate.type node = Some "computed" →
   ∃ result,
     convert node = Return result ∧
     Dom.class result = "org.accordproject.ciceromark.ComputedVariable" ∧
     prop (Dom.fields result) "value" = prop d "value" ∧
     Dom.nodes result = Some cs).
Proof.
  intros Hobj Hd Hcs.
  repeat split; intros Hty;
    pose proof (create_element node _ Hobj Hty) as Hcreate;
    unfold switch_type, data_of in Hcreate; rewrite Hd in Hcreate; cbn in Hcreate;
    (eexists; split;
     [exact (convert_container node _ cs Hcreate eq_refl Hcs)|by repeat split]).
Qed.

Lemma ciceromark_fields_from_data_witness :
  ∃ result,
    convert sample_variable = Return result ∧
    Dom.class result = "org.accordproject.ciceromark.Variable" ∧
    prop (Dom.fields result) "id" = JStr "rate" ∧
    prop (Dom.fields result) "value" = JStr "2.5" ∧
    Dom.nodes result = Some [Text_leaf (JStr "2.5")].
Proof.
  refine (proj1 (proj2 (ciceromark_fields_from_data sample_variable
                          (<["id" := JStr "rate"]> {[ "value" := JStr "2.5" ]})
                          [Text_leaf (JStr "2.5")] _ eq_refl _)) eq_refl).
  - discriminate.
  - repeat constructor.
Defined.

(** X5. The types [code_block], [html_block], [html_inline] and
    [horizontal_rule] map to a node without a children list, and the
    children of such an element are not looked at: the result is the same
    whatever [node.nodes] holds, even nodes the mapper has no case for.
    CodeBlock and HtmlBlock carry [node.text]. *)
Theorem leaf_elements_ignore_children (node : Slate.node) :
  Slate.object node ≠ Some "text" →
  (Slate.type node = Some "code_block" →
   convert node = Return (Dom.Node "org.accordproject.commonmark.CodeBlock"
                            {[ "text" := Slate.text node ]} None)) ∧
  (Slate.type node = Some "html_block" →
   convert node = Return (Dom.Node "org.accordproject.commonmark.HtmlBlock"
                            {[ "text" := Slate.text node ]} None)) ∧
  (Slate.type node = Some "html_inline" →
   convert node = Return (Dom.Node "org.accordproject.commonmark.HtmlInline" ∅ None)) ∧
  (Slate.type node = Some "horizontal_rule" →
   convert node = Return (Dom.Node "org.accordproject.commonmark.ThematicBreak" ∅ None)).
Proof.
  intros Hobj.
  repeat split; intros Hty; apply convert_leaf;
    try reflexivity; by rewrite (create_element node _ Hobj Hty).
Qed.

Lemma leaf_elements_ignore_children_witness :
  convert sample_code_block
  = Return (Dom.Node "org.accordproject.commonmark.CodeBlock"
              {[ "text" := JStr "let x = 1" ]} None).
Proof.
  refine (proj1 (leaf_elements_ignore_children sample_code_block _) eq_refl).
  discriminate.
Defined.

(** X6. An element of type [clause], [variable], [computed], [ol_list],
    [ul_list] or [link] that has no [data] makes the mapper throw a
    TypeError (the read of a field of [node.data]), and the exception
    leaves [_recursive] for every list that holds the element. *)
Theorem missing_data_throws (node : Slate.node) (ty : string) :
  Slate.object node ≠ Some "text" →
  Slate.type node = Some ty →
  ty ∈ data_types →
  Slate.data node = None →
  convert node = Throw TypeError ∧
  ∀ parent nodes, node ∈ nodes → throws (_recursive parent nodes).
Proof.
  intros Hobj Hty Hin Hd.
  assert (Hconv : convert node = Throw TypeError).
  { rewrite convert_unfold, (create_element node ty Hobj Hty).
    unfold data_types in Hin.
    repeat (apply elem_of_cons in Hin as [->|Hin];
            [unfold switch_type, data_of; rewrite Hd; reflexivity|]).
    by apply elem_of_nil in Hin. }
  split; [done|]. intros parent nodes Hnode.
  apply (_recursive_throws nodes node Hnode). by exists TypeError.
Qed.

Lemma missing_data_throws_witness :
  convert sample_link_without_data = Throw TypeError.
Proof.
  refine (proj1 (missing_data_throws sample_link_without_data "link" _ eq_refl _ eq_refl)).
  - discriminate.
  - repeat constructor.
Defined.

(** X7. [slateToCiceroMarkDom] returns the Document node with the
    commonmark [xmlns] whose children are the converted top-level nodes of
    the editor document, one for one and in order, when they all convert;
    whatever it returns has this shape; and a document without [nodes]
    makes it throw a TypeError. *)
Theorem document_children (document : Slate.document) :
  (∀ nodes cs,
     Slate.document_nodes document = Some nodes →
     Forall2 (λ n c, convert n = Return c) nodes cs →
     slateToCiceroMarkDom document = Return (Document_of cs)) ∧
  (∀ nodes result,
     Slate.document_nodes document = Some nodes →
     slateToCiceroMarkDom document = Return result →
     ∃ cs, Forall2 (λ n c, convert n = Return c) nodes cs ∧
           length cs = length nodes ∧
           result = Document_of cs) ∧
  (Slate.document_nodes document = None →
   slateToCiceroMarkDom document = Throw TypeError).
Proof.
  unfold slateToCiceroMarkDom. split; [|split].
  - intros nodes cs -> Hcs.
    change (_recursive (Document_of []) nodes = Return (Document_of cs)).
    by rewrite (_recursive_Forall2 nodes cs Hcs (Document_of []) [] eq_refl).
  - intros nodes result -> Hret.
    change (_recursive (Document_of []) nodes = Return result) in Hret.
    apply (_recursive_Return nodes (Document_of []) []) in Hret as (cs & Hcs & ->);
      [|reflexivity].
    exists cs. split; [done|]. split; [|reflexivity].
    symmetry. by eapply Forall2_length.
  - by intros ->.
Qed.

Lemma document_children_witness :
  slateToCiceroMarkDom
    (Slate.Document (Some [element "paragraph" [text_node "a" []];
                           element "horizontal_rule" []]))
  = Return (Document_of
              [Paragraph_of [Text_leaf (JStr "a")];
               Dom.Node "org.accordproject.commonmark.ThematicBreak" ∅ None]).
Proof.
  refine (proj1 (document_children
                   (Slate.Document (Some [element "paragraph" [text_node "a" []];
                                          element "horizontal_rule" []])))
            _ _ eq_refl _).
  repeat constructor.
Defined.


(** ** Trees the mapper has a case for *)

(** A created object whose first child, when it has one, has a [nodes]
    array takes every list of children that converts. *)
Lemma convert_returns (node : Slate.node) (result : Dom.node) :
  create node = Return result →
  (∀ first rest, Dom.nodes result = Some (first :: rest) → is_Some (Dom.nodes first)) →
  Forall (λ n, returns (convert n)) (default [] (Slate.nodes node)) →
  returns (convert node).
Proof.
  intros Hcreate Hfirst Hchildren.
  destruct (Forall_returns_Forall2 _ Hchildren) as [cs Hcs].
  rewrite convert_unfold, Hcreate. cbn.
  destruct (Slate.nodes node) as [children|]; [|by eexists]. cbn in Hcs.
  destruct (Dom.nodes result) as [[|first rest]|] eqn:Hnodes; [| |by eexists].
  - rewrite (_recursive_Forall2 children cs Hcs result [] Hnodes). by eexists.
  - destruct (Hfirst first rest eq_refl) as [l Hl].
    rewrite (_recursive_Forall2 children cs Hcs first l Hl). by eexists.
Qed.

Lemma handleText_returns (node : Slate.node) :
  is_Some (Slate.marks node) → returns (handleText node).
Proof. intros [ms Hms]. rewrite (handleText_cases node ms Hms). by eexists. Qed.

(** A text object is handed to the mark composer, whatever its type. *)
Lemma create_text (node : Slate.node) :
  Slate.object node = Some "text" → create node = handleText node.
Proof.
  intros Hobj. unfold create. rewrite Hobj.
  change (String.eqb "text" "text") with true. cbv iota.
  by destruct (handleText node).
Qed.

Ltac solve_created :=
  intros first rest Hnodes; cbn in Hnodes;
  first [discriminate Hnodes | injection Hnodes as <- <-; by eexists].

Lemma convertible_returns (node : Slate.node) :
  convertible node = true → returns (convert node).
Proof.
  induction node as [object type data nodes text marks IH] using slate_node_ind.
  cbn [convertible]. case_bool_decide as Hobj.
  - (* a text object *)
    intros [Hmarks Hnodes]%andb_prop.
    apply bool_decide_eq_true in Hmarks, Hnodes.
    destruct (handleText_returns (Slate.Node object type data nodes text marks) Hmarks)
      as [r Hr].
    rewrite convert_unfold,
      (create_text (Slate.Node object type data nodes text marks) Hobj), Hr. cbn.
    destruct nodes as [children|]; [|by eexists]. cbn in Hnodes. subst children.
    destruct (Dom.nodes r) as [[|first rest]|]; by eexists.
  - (* an element *)
    destruct type as [ty|]; [|discriminate].
    intros [[Hty Hdata]%andb_prop Hchildren]%andb_prop.
    apply bool_decide_eq_true in Hty.
    assert (Hreturns : Forall (λ n, returns (convert n)) (default [] nodes)).
    { destruct nodes as [children|]; [|constructor]. cbn in *.
      pose proof (proj1 (forallb_forall convertible children) Hchildren) as Hall.
      rewrite Forall_forall in IH.
      apply Forall_forall. intros n Hn. apply IH; [done|].
      apply Hall. by apply list_elem_of_In. }
    assert (Hd : ty ∉ data_types ∨ is_Some data).
    { apply orb_prop in Hdata as [H|H]; apply bool_decide_eq_true in H; auto. }
    clear Hdata Hchildren IH.
    pose proof (create_element (Slate.Node object (Some ty) data nodes text marks)
                  ty Hobj eq_refl) as Hcreate.
    unfold recognized in Hty.
    repeat (apply elem_of_cons in Hty as [->|Hty];
            [first
               [ (* the case does not read the data *)
                 cbn in Hcreate;
                 by (eapply convert_returns; [exact Hcreate|solve_created|exact Hreturns])
               | (* the case reads the data *)
                 destruct Hd as [Hd|[d ->]];
                 [exfalso; apply Hd; unfold data_types; set_solver|];
                 cbn in Hcreate;
                 by (eapply convert_returns; [exact Hcreate|solve_created|exact Hreturns]) ]|]).
    by apply elem_of_nil in Hty.
Qed.

(** X9. The mapper returns a tree for every editor document it has a case
    for at every node: text objects with their marks and no children,
    elements of a recognised type with their [data] where the case reads
    it, nested to any depth.  No exception leaves the conversion. *)
Theorem convertible_document_returns (document : Slate.document)
    (nodes : list Slate.node) :
  Slate.document_nodes document = Some nodes →
  forallb convertible nodes = true →
  ∃ cs, slateToCiceroMarkDom document = Return (Document_of cs) ∧
        length cs = length nodes.
Proof.
  intros Hnodes Hall.
  assert (Hreturns : Forall (λ n, returns (convert n)) nodes).
  { apply Forall_forall. intros n Hn. apply convertible_returns.
    apply (proj1 (forallb_forall convertible nodes) Hall). by apply list_elem_of_In. }
  destruct (Forall_returns_Forall2 nodes Hreturns) as [cs Hcs].
  exists cs. split; [|symmetry; by eapply Forall2_length].
  unfold slateToCiceroMarkDom. rewrite Hnodes.
  change (_recursive (Document_of []) nodes = Return (Document_of cs)).
  by rewrite (_recursive_Forall2 nodes cs Hcs (Document_of []) [] eq_refl).
Qed.

Lemma convertible_document_returns_witness :
  ∃ cs, slateToCiceroMarkDom
          (Slate.Document (Some [sample_list; element "quote" [sample_link]]))
        = Return (Document_of cs) ∧
        length cs = 2.
Proof.
  apply (convertible_document_returns
           (Slate.Document (Some [sample_list; element "quote" [sample_link]]))
           [sample_list; element "quote" [sample_link]] eq_refl).
  vm_compute. reflexivity.
Defined.

(** ** The text of a text node *)

(** X10. Whatever its marks, a text node maps to a tree with exactly one
    leaf, and that leaf carries the raw text of the node: the marks wrap
    the text and never change, drop or repeat it. *)
Theorem handleText_keeps_text (node : Slate.node) :
  is_Some (Slate.marks node) →
  ∃ result, handleText node = Return result ∧
            leaf_texts result = [Slate.text node].
Proof.
  intros [ms Hms]. rewrite (handleText_cases node ms Hms).
  eexists. split; [reflexivity|].
  destruct (some_mark "code" ms); [reflexivity|].
  destruct (some_mark "bold" ms), (some_mark "italic" ms); reflexivity.
Qed.

Lemma handleText_keeps_text_witness :
  ∃ result, handleText (text_node "hi" ["bold"; "italic"]) = Return result ∧
            leaf_texts result = [JStr "hi"].
Proof.
  apply (handleText_keeps_text (text_node "hi" ["bold"; "italic"])).
  by eexists.
Defined.
(** * Further properties of the tag classifier *)

Lemma upper_char_not_lower (c : ascii) : is_lower (upper_char c) = false.
Proof.
  destruct c as [[] [] [] [] [] [] [] []]; reflexivity.
Qed.

Lemma upper_char_not_underscore (c : ascii) :
  is_lower c = true → upper_char c ≠ "_"%char.
Proof.
  destruct c as [[] [] [] [] [] [] [] []]; intros H; try discriminate H;
    discriminate.
Qed.

(** X11. [capitalizeFirstLetter] hands the first code unit of the string
    to [toUpperCase] and keeps the rest as it is, whatever [toUpperCase]
    makes of that code unit: one character, or more than one.  When the
    upper case of the first code unit is one code unit, the result has
    the length of the string and differs from it in the first code unit
    at most. *)
Theorem capitalizeFirstLetter_first_only (toUpperCase : string → string) (s : string) :
  capitalizeFirstLetter toUpperCase s
  = match s with
    | EmptyString => toUpperCase EmptyString
    | String c rest => toUpperCase (String c EmptyString) +:+ rest
    end ∧
  (∀ c rest u,
     s = String c rest →
     toUpperCase (String c EmptyString) = String u EmptyString →
     capitalizeFirstLetter toUpperCase s = String u rest ∧
     String.length (capitalizeFirstLetter toUpperCase s) = String.length s).
Proof.
  split.
  - destruct s as [|c rest].
    + apply capitalizeFirstLetter_empty.
    + apply capitalizeFirstLetter_cons.
  - intros c rest u -> Hu. rewrite capitalizeFirstLetter_cons, Hu. by split.
Qed.

Lemma capitalizeFirstLetter_first_only_witness :
  capitalizeFirstLetter sample_toUpperCase "item" = "Item" ∧
  String.length (capitalizeFirstLetter sample_toUpperCase "item") = 4.
Proof.
  exact (proj2 (capitalizeFirstLetter_first_only sample_toUpperCase "item")
           "i"%char "tem" "I"%char eq_refl eq_refl).
Defined.

(** Induction on strings two characters at a time. *)
Lemma string_ind2 (P : string → Prop) :
  P EmptyString →
  (∀ c, P (String c EmptyString)) →
  (∀ c d s, P s → P (String d s) → P (String c (String d s))) →
  ∀ s, P s.
Proof.
  intros H0 H1 H2 s.
  enough (H : P s ∧ ∀ c, P (String c s)) by apply H.
  induction s as [|d s [IHs IHd]]; [by split|].
  split; [apply IHd|]. intros c. by apply H2.
Qed.

Lemma replace_underscore_lower_no_match (name : string) :
  has_match name = false → replace_underscore_lower name = name.
Proof.
  induction name as [|c rest IH]; [reflexivity|].
  destruct rest as [|d rest']; [reflexivity|].
  intros [Hhere Hrest]%orb_false_elim.
  change (replace_underscore_lower (String c (String d rest')))
    with (if Ascii.eqb c "_" && is_lower d
          then String (upper_char d) (replace_underscore_lower rest')
          else String c (replace_underscore_lower (String d rest'))).
  rewrite Hhere. by rewrite (IH Hrest).
Qed.

(** The first character of a replacement is the first character of the
    name or an upper-case letter. *)
Lemma replace_underscore_lower_head (d : ascii) (rest : string) :
  ∃ h t, replace_underscore_lower (String d rest) = String h t ∧
         (h = d ∨ is_lower h = false).
Proof.
  destruct rest as [|e rest']; [by exists d, EmptyString; auto|].
  cbn [replace_underscore_lower].
  destruct (Ascii.eqb d "_" && is_lower e).
  - eexists _, _. split; [reflexivity|]. right. apply upper_char_not_lower.
  - eexists _, _. split; [reflexivity|]. by left.
Qed.

Lemma has_match_cons (c d : ascii) (s : string) :
  has_match (String c (String d s))
  = (Ascii.eqb c "_" && is_lower d) || has_match (String d s).
Proof. reflexivity. Qed.

Lemma replace_underscore_lower_has_no_match (name : string) :
  has_match (replace_underscore_lower name) = false.
Proof.
  induction name as [|c|c d rest IHrest IHd] using string_ind2; [reflexivity..|].
  destruct (Ascii.eqb c "_" && is_lower d) eqn:Hmatch.
  - apply andb_prop in Hmatch as [Hc Hd]. apply Ascii.eqb_eq in Hc as ->.
    rewrite (replace_underscore_lower_match d rest Hd).
    destruct (replace_underscore_lower rest) as [|h t] eqn:Hout; [reflexivity|].
    rewrite has_match_cons, IHrest, orb_false_r.
    destruct (Ascii.eqb_spec (upper_char d) "_") as [Heq|_]; [|reflexivity].
    by destruct (upper_char_not_underscore d Hd).
  - rewrite replace_underscore_lower_keep.
    2:{ apply andb_false_iff in Hmatch as [Hc|Hd]; [left|by right].
        intros ->. discriminate Hc. }
    destruct (replace_underscore_lower_head d rest) as (h & t & Hout & Hh).
    rewrite Hout in IHd |- *. rewrite has_match_cons, IHd, orb_false_r.
    apply andb_false_iff.
    destruct (Ascii.eqb_spec c "_") as [->|_]; [right|by left].
    destruct Hh as [->|Hh]; [|done].
    by apply andb_false_iff in Hmatch as [Hc|Hd].
Qed.

(** X12. The camel-casing of [toClass] leaves nothing for itself to
    replace: its result has no underscore followed by a lower-case letter,
    and applying it again changes nothing. *)
Theorem replace_underscore_lower_idempotent (name : string) :
  has_match (replace_underscore_lower name) = false ∧
  replace_underscore_lower (replace_underscore_lower name)
  = replace_underscore_lower name.
Proof.
  split; [apply replace_underscore_lower_has_no_match|].
  apply replace_underscore_lower_no_match, replace_underscore_lower_has_no_match.
Qed.

(** X13. A tag name without an underscore before a lower-case letter, and
    so every name without underscore, is only capitalised and prefixed:
    underscores before a digit, an upper-case letter, another underscore
    or the end of the name stay in the class name. *)
Theorem toClass_without_match (toUpperCase : string → string) (prefix name : string) :
  has_match name = false →
  toClass prefix toUpperCase name = prefix +:+ capitalizeFirstLetter toUpperCase name.
Proof.
  intros H. unfold toClass. by rewrite (replace_underscore_lower_no_match name H).
Qed.

Lemma toClass_without_match_witness :
  toClass "org.accordproject.commonmark." sample_toUpperCase "a__1_"
  = "org.accordproject.commonmark." +:+ capitalizeFirstLetter sample_toUpperCase "a__1_".
Proof.
  apply (toClass_without_match sample_toUpperCase "org.accordproject.commonmark." "a__1_").
  reflexivity.
Defined.

(** * Further properties of the node kinds *)

Lemma append_inj_l (p a b : string) : p +:+ a = p +:+ b → a = b.
Proof.
  induction p as [|c p IH]; [done|].
  change (String c (p +:+ a) = String c (p +:+ b) → a = b).
  intros [= H]. by apply IH.
Qed.

Lemma class_is_functional (prefix : string) (json : gmap string value)
    (a b : string) :
  class_is prefix json a = true → class_is prefix json b = true → a = b.
Proof.
  unfold class_is. destruct (json !! "$class") as [[c| | |]|]; try discriminate.
  intros ->%String.eqb_eq Hb%String.eqb_eq. by apply (append_inj_l prefix).
Qed.

(** X14. The HTML nodes and the code blocks are leaf nodes, and no node is
    both an HTML node and a code block, whatever the namespace prefix: a
    text event on such a node first stores the text and then reads the tag
    from exactly one of [text] and [info]. *)
Theorem node_kinds (prefix : string) (json : gmap string value) :
  (isHtmlNode prefix json = true → isLeafNode prefix json = true) ∧
  (isCodeBlockNode prefix json = true → isLeafNode prefix json = true) ∧
  (isHtmlNode prefix json = true → isCodeBlockNode prefix json = false).
Proof.
  unfold isHtmlNode, isCodeBlockNode, isLeafNode. split; [|split].
  - intros [H|H]%orb_prop; rewrite H; by rewrite ?orb_true_r.
  - intros H. rewrite H. by rewrite ?orb_true_r.
  - intros [H|H]%orb_prop;
      destruct (class_is prefix json "CodeBlock") eqn:Hcode; try reflexivity;
      discriminate (class_is_functional prefix json _ _ H Hcode).
Qed.

Lemma node_kinds_witness :
  isLeafNode "org.accordproject.commonmark."
    {[ "$class" := VStr "org.accordproject.commonmark.HtmlBlock" ]} = true.
Proof.
  apply (proj1 (node_kinds "org.accordproject.commonmark."
                  {[ "$class" := VStr "org.accordproject.commonmark.HtmlBlock" ]})).
  vm_compute. reflexivity.
Defined.

(** * Further properties of the HTML fragment inspector *)

(** X15. An input that is not a string, such as the undefined [info] of a
    code block without an info string, gives null whatever the HTML parser
    makes of it: the test [string.endsWith] throws inside the [try]. *)
Theorem parseHtmlBlock_not_a_string (toLowerCase : string → string)
    (parseFromString : option value → outcome (option DomDocument))
    (string : option value) :
  (∀ s, string ≠ Some (VStr s)) →
  parseHtmlBlock toLowerCase parseFromString string = Return None.
Proof.
  intros Hstring. unfold parseHtmlBlock, parseHtmlBlock_try.
  destruct (parseFromString string) as [[doc|]|e]; [|reflexivity..]. cbn.
  destruct (childNodes doc) as [|item rest]; [reflexivity|]. cbn.
  destruct (dom_attributes item) as [attributes|]; [|reflexivity]. cbn.
  destruct (fold_left _ attributes _) as [attributeString attributeObject].
  destruct (dom_tagName item) as [name|]; [|reflexivity]. cbn.
  destruct string as [[s| | |]|]; try reflexivity.
  by destruct (Hstring s).
Qed.

Lemma parseHtmlBlock_not_a_string_witness :
  parseHtmlBlock sample_toLowerCase sample_parser_attributes None = Return None.
Proof.
  apply (parseHtmlBlock_not_a_string sample_toLowerCase sample_parser_attributes None).
  discriminate.
Defined.

(** A property other than [__proto__] reads the value assigned last. *)
Lemma lookup_set_property (name value k : string) (object : list (string * string)) :
  k ≠ "__proto__" →
  lookup_property k (set_property name value object)
  = if String.eqb name k then Some value else lookup_property k object.
Proof.
  intros Hk. unfold set_property.
  destruct (String.eqb_spec name "__proto__") as [->|_].
  - by rewrite (proj2 (String.eqb_neq "__proto__" k)) by done.
  - apply lookup_update_property.
Qed.

Lemma lookup_set_properties (k : string) (attributes : list (string * string)) :
  k ≠ "__proto__" →
  ∀ o,
    lookup_property k
      (fold_left (λ o '(name, value), set_property name value o) attributes o)
    = match lookup_property k (reverse attributes) with
      | Some v => Some v
      | None => lookup_property k o
      end.
Proof.
  intros Hk.
  induction attributes as [|[name value] attributes IH]; intros o; [reflexivity|].
  cbn [fold_left].
  rewrite IH, reverse_cons, lookup_property_app, lookup_set_property by done.
  destruct (lookup_property k (reverse attributes)); [reflexivity|].
  cbn. by destruct (String.eqb name k).
Qed.

Lemma set_properties_distinct (attributes : list (string * string)) :
  ∀ o, NoDup (o ++ attributes).*1 →
       fold_left (λ o '(name, value), set_property name value o) attributes o
       = o ++ filter (λ p, p.1 ≠ "__proto__") attributes.
Proof.
  induction attributes as [|[name value] attributes IH]; intros o Ho.
  - cbn. by rewrite app_nil_r.
  - cbn [fold_left]. rewrite filter_cons. cbn [fst].
    assert (Hnotin : name ∉ o.*1).
    { rewrite fmap_app in Ho. apply NoDup_app in Ho as (_ & Hdisj & _).
      intros Hin. apply (Hdisj name Hin). cbn. apply elem_of_cons. by left. }
    unfold set_property at 2.
    destruct (String.eqb_spec name "__proto__") as [->|Hne].
    + rewrite decide_False by (by intros H; apply H). apply IH.
      rewrite fmap_app in Ho |- *. cbn in Ho.
      apply NoDup_app in Ho as (Ho & Hdisj & Hattr).
      apply NoDup_cons in Hattr as [_ Hattr].
      apply NoDup_app. split; [done|]. split; [|done].
      intros k Hk Hk'. apply (Hdisj k Hk). apply elem_of_cons. by right.
    + rewrite decide_True by done.
      destruct (update_property_keys name value o) as [[_ Hin]|[-> _]];
        [by destruct Hnotin|].
      rewrite IH; rewrite <- app_assoc; [reflexivity|exact Ho].
Qed.

Lemma set_properties_no_proto (attributes : list (string * string)) :
  "__proto__" ∉ (set_properties attributes).*1.
Proof.
  unfold set_properties.
  enough (H : ∀ o, "__proto__" ∉ o.*1 →
                   "__proto__" ∉ (fold_left (λ o '(name, value), set_property name value o)
                                    attributes o).*1).
  { apply H, not_elem_of_nil. }
  induction attributes as [|[name value] attributes IH]; intros o Ho; [done|].
  cbn [fold_left]. apply IH. rewrite set_property_keys.
  intros [H|[H1 H2]]; [by destruct Ho|]. by destruct H2.
Qed.

(** X16. The tag object of an element has one property for each
    attribute name other than [__proto__], which a plain object does not
    store, with the value of the last occurrence of the name, while
    [attributeString] spells out every occurrence in order; when the
    names are distinct, as the attributes of an element are, the
    properties are created in the order of the attributes. *)
Theorem parseHtmlBlock_attributes (toLowerCase : string → string)
    (parseFromString : option value → outcome (option DomDocument))
    (input : option value) (doc : DomDocument) (item : DomNode)
    (rest : list DomNode) (attributes : list (string * string)) (t : HtmlTag) :
  parseFromString input = Return (Some doc) →
  childNodes doc = item :: rest →
  dom_attributes item = Some attributes →
  parseHtmlBlock toLowerCase parseFromString input = Return (Some t) →
  tag_attributeString t = concat_strings (format_attribute <$> attributes) ∧
  NoDup (tag_attributes t).*1 ∧
  lookup_property "__proto__" (tag_attributes t) = None ∧
  (∀ name, name ≠ "__proto__" →
           lookup_property name (tag_attributes t)
           = lookup_property name (reverse attributes)) ∧
  (NoDup attributes.*1 →
   tag_attributes t = filter (λ p, p.1 ≠ "__proto__") attributes).
Proof.
  intros Hdoc Hitem Hattributes Hret.
  destruct (parseHtmlBlock_Some toLowerCase parseFromString input t Hret)
    as (doc' & item' & rest' & attributes' & name & s & H1 & H2 & H3 & _ & _ & ->).
  rewrite Hdoc in H1. injection H1 as <-. rewrite Hitem in H2. injection H2 as <- <-.
  rewrite Hattributes in H3. injection H3 as <-. cbn.
  split; [reflexivity|]. split; [apply set_properties_NoDup|].
  split; [apply lookup_property_None_elem, set_properties_no_proto|]. split.
  - intros name' Hname. unfold set_properties. rewrite lookup_set_properties by done.
    by destruct (lookup_property name' (reverse attributes)).
  - intros Hnodup. unfold set_properties.
    by rewrite (set_properties_distinct attributes []).
Qed.

Lemma parseHtmlBlock_attributes_witness :
  ∃ t, parseHtmlBlock sample_toLowerCase sample_parser
         (Some (VStr "<a href='u' id='i'>x</a>")) = Return (Some t) ∧
       tag_attributes t = [("href", "u"); ("id", "i")] ∧
       lookup_property "href" (tag_attributes t) = Some "u" ∧
       NoDup (tag_attributes t).*1.
Proof.
  eexists. split; [reflexivity|]. split; [reflexivity|].
  destruct (parseHtmlBlock_attributes sample_toLowerCase sample_parser
              (Some (VStr "<a href='u' id='i'>x</a>"))
              _ _ _ _ _ eq_refl eq_refl eq_refl eq_refl) as (_ & Hnodup & _ & Hlookup & _).
  split; [|exact Hnodup]. apply (Hlookup "href"). discriminate.
Defined.

(** * Further properties of the handlers *)

Section MoreHandlers.

Variable COMMON_NS_PREFIX : string.
Variable trim : string → string.
Variable toUpperCase : string → string.
Variable toLowerCase : string → string.
Variable parseFromString : option value → outcome (option DomDocument).
Variable options : option Options.

Local Abbreviation ontext'' :=
  (ontext COMMON_NS_PREFIX trim toLowerCase parseFromString options).
Local Abbreviation isLeafNode'' := (isLeafNode COMMON_NS_PREFIX).
Local Abbreviation isHtmlNode'' := (isHtmlNode COMMON_NS_PREFIX).
Local Abbreviation isCodeBlockNode'' := (isCodeBlockNode COMMON_NS_PREFIX).

(** X17. A text event changes nothing when the stack is empty and when the
    top frame is not one of the five leaf kinds: the white space between
    the tags of a container is dropped, whatever the options. *)
Theorem ontext_ignores_containers (t : string) (st : state) :
  (Stack.peek st = None → ontext'' t st = Return st) ∧
  (∀ head json,
     Stack.peek st = Some head →
     heap st !! head = Some json →
     isLeafNode'' json = false →
     ontext'' t st = Return st).
Proof.
  split.
  - intros Hpeek. unfold ontext. by rewrite Hpeek.
  - intros head json Hpeek Hjson Hleaf. unfold ontext, deref.
    rewrite Hpeek, Hjson.
    destruct (0 <? String.length _)%nat; [|reflexivity].
    cbn [mbind outcome_bind bind]. rewrite Hleaf.
    rewrite (not_leaf_not_html COMMON_NS_PREFIX json Hleaf). cbn.
    by rewrite (store_same st head json Hjson).
Qed.

(** X18. Without the [tagInfo] option a text event touches nothing but the
    [text] field of the top frame: the stack, the other objects and the
    other fields of the frame, [tag] included, stay as they are. *)
Theorem ontext_without_tagInfo (t : string) (st : state) (head : ref)
    (json : gmap string value) :
  option_set options tagInfo = false →
  Stack.peek st = Some head →
  heap st !! head = Some json →
  ∃ st' json',
    ontext'' t st = Return st' ∧
    stack st' = stack st ∧
    heap st' !! head = Some json' ∧
    (∀ k, k ≠ "text" → json' !! k = json !! k) ∧
    (∀ r, r ≠ head → heap st' !! r = heap st !! r).
Proof.
  intros Hoff Hpeek Hjson. unfold ontext, deref. rewrite Hpeek, Hjson.
  destruct (0 <? String.length _)%nat; [|by exists st, json].
  cbn [mbind outcome_bind bind]. rewrite Hoff.
  set (t' := if option_set options trimText then trim t else t).
  set (json1 := if isLeafNode'' json then <["text" := VStr t']> json else json).
  assert (Hsame : ∀ k, k ≠ "text" → json1 !! k = json !! k).
  { intros k Hk. subst json1. destruct (isLeafNode'' json); [|reflexivity].
    by rewrite lookup_insert_ne. }
  exists (store head json1 st), json1.
  split; [by destruct (isHtmlNode'' json1 || isCodeBlockNode'' json1)|].
  split; [reflexivity|]. split; [|split; [exact Hsame|]].
  - cbn. apply list_lookup_insert_eq. by eapply lookup_lt_Some.
  - intros r Hr. cbn. by rewrite list_lookup_insert_ne.
Qed.

(** X19. With the [tagInfo] option, a non-empty text on an HTML node or a
    code block stores the text and then hands to [parseHtmlBlock] the text
    just stored for an HTML node and the [info] field for a code block.
    When the inspector returns no tag object, the frame keeps the [tag]
    it had.  When it returns one whose attributes have a property
    [hasOwnProperty], the event throws a TypeError.  Otherwise the frame
    gets the tag object, with one attribute for each property, those
    named by an array index first, in ascending order, then the others in
    the order of their creation. *)
Theorem ontext_attaches_tag (t : string) (st : state) (head : ref)
    (json : gmap string value) :
  option_set options tagInfo = true →
  Stack.peek st = Some head →
  heap st !! head = Some json →
  isHtmlNode'' json || isCodeBlockNode'' json = true →
  let t' := if option_set options trimText then trim t else t in
  t' ≠ EmptyString →
  let maybeHtmlText := if isHtmlNode'' json then Some (VStr t') else json !! "info" in
  match parseHtmlBlock toLowerCase parseFromString maybeHtmlText with
  | Return (Some tagInfo) =>
      match lookup_property "hasOwnProperty" (tag_attributes tagInfo) with
      | Some _ => ontext'' t st = Throw TypeError
      | None =>
          ∃ st' json',
            ontext'' t st = Return st' ∧
            heap st' !! head = Some json' ∧
            json' !! "text" = Some (VStr t') ∧
            json' !! "tag" =
              Some (VTag {| taginfo_class := COMMON_NS_PREFIX +:+ "TagInfo";
                            tagName := tag tagInfo;
                            attributeString := tag_attributeString tagInfo;
                            attributes :=
                              (λ p : string * string,
                                 make_attribute COMMON_NS_PREFIX p.1 p.2)
                                <$> for_in (tag_attributes tagInfo);
                            content := tag_content tagInfo;
                            closed := tag_closed tagInfo |})
      end
  | _ =>
      ∃ st' json',
        ontext'' t st = Return st' ∧
        heap st' !! head = Some json' ∧
        json' !! "text" = Some (VStr t') ∧
        json' !! "tag" = json !! "tag"
  end.
Proof.
  intros Hon Hpeek Hjson Hkind t' Hne maybeHtmlText.
  pose proof (html_is_leaf COMMON_NS_PREFIX json Hkind) as Hleaf.
  pose proof (ontext_unfold COMMON_NS_PREFIX trim toLowerCase parseFromString options
                t st head json Hpeek Hjson) as Hret.
  unfold trimmed in Hret. fold t' in Hret. cbv zeta in Hret. fold maybeHtmlText in Hret.
  assert (Hlen : (0 <? String.length t')%nat = true).
  { generalize Hne. generalize t'. by intros [|? ?]. }
  rewrite Hlen, Hkind, Hon, Hleaf in Hret. cbn [andb] in Hret.
  assert (Hlt : head < length (heap st)) by by eapply lookup_lt_Some.
  destruct (parseHtmlBlock toLowerCase parseFromString maybeHtmlText)
    as [[tagInfo|]|e] eqn:Hparse.
  - pose proof (parseHtmlBlock_NoDup toLowerCase parseFromString _ _ Hparse) as Hnodup.
    unfold make_tag in Hret.
    destruct (lookup_property "hasOwnProperty" (tag_attributes tagInfo)) as [v|] eqn:Hown.
    + rewrite tag_attributes_loop_spec, Hown in Hret. exact Hret.
    + rewrite (tag_attributes_loop_NoDup COMMON_NS_PREFIX _ Hnodup Hown) in Hret.
      cbn [mbind outcome_bind bind] in Hret.
      eexists _, _. split; [exact Hret|]. cbn.
      split; [by apply list_lookup_insert_eq|].
      split; [by rewrite lookup_insert_ne, lookup_insert_eq by discriminate|].
      by rewrite lookup_insert_eq.
  - eexists _, _. split; [exact Hret|]. cbn.
    split; [by apply list_lookup_insert_eq|].
    split; [by rewrite lookup_insert_eq|].
    by rewrite lookup_insert_ne by discriminate.
  - eexists _, _. split; [exact Hret|]. cbn.
    split; [by apply list_lookup_insert_eq|].
    split; [by rewrite lookup_insert_eq|].
    by rewrite lookup_insert_ne by discriminate.
Qed.

End MoreHandlers.

Lemma ontext_ignores_containers_witness :
  ontext "org.accordproject.commonmark." sample_trim sample_toLowerCase sample_parser
    None "  " paragraph_frame_state
  = Return paragraph_frame_state.
Proof.
  refine (proj2 (ontext_ignores_containers "org.accordproject.commonmark." sample_trim
                   sample_toLowerCase sample_parser None "  " paragraph_frame_state)
            0 paragraph_frame eq_refl eq_refl _).
  vm_compute. reflexivity.
Defined.

Lemma ontext_without_tagInfo_witness :
  ∃ st' json',
    ontext "org.accordproject.commonmark." sample_trim sample_toLowerCase sample_parser
      None "<br/>" html_frame_state
    = Return st' ∧
    stack st' = [0] ∧
    heap st' !! 0 = Some json' ∧
    (∀ k, k ≠ "text" → json' !! k = html_frame !! k) ∧
    (∀ r, r ≠ 0 → heap st' !! r = heap html_frame_state !! r).
Proof.
  exact (ontext_without_tagInfo "org.accordproject.commonmark." sample_trim
           sample_toLowerCase sample_parser None
           "<br/>" html_frame_state 0 html_frame eq_refl eq_refl eq_refl).
Defined.

Lemma ontext_attaches_tag_witness :
  (∃ st' json',
     ontext "org.accordproject.commonmark." sample_trim sample_toLowerCase sample_parser
       tagInfo_options "<a href='u' id='i'>x</a>" html_frame_state = Return st' ∧
     heap st' !! 0 = Some json' ∧
     json' !! "text" = Some (VStr "<a href='u' id='i'>x</a>") ∧
     json' !! "tag" =
       Some (VTag {| taginfo_class := "org.accordproject.commonmark.TagInfo";
                     tagName := "a";
                     attributeString :=
                       concat_strings (format_attribute <$> [("href", "u"); ("id", "i")]);
                     attributes :=
                       [ make_attribute "org.accordproject.commonmark." "href" "u";
                         make_attribute "org.accordproject.commonmark." "id" "i" ];
                     content := Some "x";
                     closed := false |})) ∧
  ontext "org.accordproject.commonmark." sample_trim sample_toLowerCase sample_parser
    tagInfo_options "<a hasOwnProperty='x'>" html_frame_state = Throw TypeError.
Proof.
  split.
  - refine (ontext_attaches_tag "org.accordproject.commonmark." sample_trim
              sample_toLowerCase sample_parser tagInfo_options
              "<a href='u' id='i'>x</a>" html_frame_state 0 html_frame
              eq_refl eq_refl eq_refl _ _).
    + vm_compute. reflexivity.
    + discriminate.
  - refine (ontext_attaches_tag "org.accordproject.commonmark." sample_trim
              sample_toLowerCase sample_parser tagInfo_options
              "<a hasOwnProperty='x'>" html_frame_state 0 html_frame
              eq_refl eq_refl eq_refl _ _).
    + vm_compute. reflexivity.
    + discriminate.
Defined.

Section OpenAndRun.

Variable COMMON_NS_PREFIX : string.
Variable toUpperCase : string → string.
Variable options : option Options.

Local Abbreviation onopentag3 := (onopentag COMMON_NS_PREFIX toUpperCase options).
Local Abbreviation newNode_of3 := (newNode_of COMMON_NS_PREFIX toUpperCase options).

(** X20. An open tag puts on top of the stack a new object that has every
    attribute of the tag as a string field of the same name; its [$class]
    is the class of the tag name unless an attribute of that name replaces
    it; with [enableSourceLocation] it has the four positions of the
    parser where no attribute replaces them, and without the option it has
    no other field. *)
Theorem onopentag_hoists_attributes (name : string) (attributes : gmap string string)
    (pos : Position) (st : state) :
  frames_ok st →
  match attributes !! "nodes" with
  | Some v => String.eqb v EmptyString
  | None => true
  end = true →
  ∃ st' json,
    onopentag3 name attributes pos st = Return st' ∧
    Stack.peek st' = Some (length (heap st)) ∧
    heap st' !! length (heap st) = Some json ∧
    (∀ k v, attributes !! k = Some v → json !! k = Some (VStr v)) ∧
    (attributes !! "$class" = None →
     json !! "$class" = Some (VStr (toClass COMMON_NS_PREFIX toUpperCase name))) ∧
    (option_set options enableSourceLocation = true →
     (attributes !! "line" = None → json !! "line" = Some (VNum (line pos))) ∧
     (attributes !! "column" = None → json !! "column" = Some (VNum (column pos))) ∧
     (attributes !! "position" = None →
      json !! "position" = Some (VNum (position pos))) ∧
     (attributes !! "startTagPosition" = None →
      json !! "startTagPosition" = Some (VNum (startTagPosition pos)))) ∧
    (option_set options enableSourceLocation = false →
     ∀ k, attributes !! k = None → k ≠ "$class" → json !! k = None).
Proof.
  intros Hst Hattr.
  destruct (onopentag_frames COMMON_NS_PREFIX toUpperCase options name attributes pos st
              Hst Hattr)
    as (st' & Hret & Hstack & _ & _ & Hnew).
  exists st', (newNode_of3 name attributes pos).
  split; [exact Hret|]. split; [unfold Stack.peek; by rewrite Hstack|].
  split; [exact Hnew|]. unfold newNode_of. split; [|split; [|split]].
  - intros k v Hk. by rewrite hoist_lookup, Hk.
  - intros Hclass. rewrite hoist_lookup, Hclass.
    destruct (option_set options enableSourceLocation);
      by rewrite ?lookup_insert_ne, lookup_singleton_eq by discriminate.
  - intros ->. repeat split; intros Hk; rewrite hoist_lookup, Hk.
    + by rewrite !lookup_insert_ne, lookup_insert_eq by discriminate.
    + by rewrite !lookup_insert_ne, lookup_insert_eq by discriminate.
    + by rewrite lookup_insert_ne, lookup_insert_eq by discriminate.
    + by rewrite lookup_insert_eq.
  - intros -> k Hk Hclass. rewrite hoist_lookup, Hk.
    by rewrite lookup_singleton_ne.
Qed.

(** X21. An open tag met with a frame on top links the new node as the
    last child of that frame: the children the frame had stay in order
    before it, a frame without children gets its list first, and no other
    field of the frame and no other object changes.  (The link itself is
    the push of the stack.) *)
Theorem onopentag_links_child (name : string) (attributes : gmap string string)
    (pos : Position) (st : state) (head : ref) (json : gmap string value) :
  Stack.peek st = Some head →
  heap st !! head = Some json →
  nodes_ok json →
  ∃ st' json',
    onopentag3 name attributes pos st = Return st' ∧
    stack st' = length (heap st) :: stack st ∧
    heap st' !! head = Some json' ∧
    json' !! "nodes" = Some (VArr (children_of json ++ [length (heap st)])) ∧
    (∀ k, k ≠ "nodes" → json' !! k = json !! k) ∧
    (∀ r, r ≠ head → r < length (heap st) → heap st' !! r = heap st !! r).
Proof.
  intros Hpeek Hjson Hok.
  assert (Hlt : head < length (heap st)) by by eapply lookup_lt_Some.
  unfold onopentag, deref. rewrite Hpeek, Hjson. cbn [mbind outcome_bind bind].
  unfold Stack.peek in Hpeek.
  destruct (stack st) as [|head' s] eqn:Hs; [discriminate Hpeek|].
  cbn in Hpeek. injection Hpeek as ->.
  destruct (truthy (json !! "nodes")) eqn:Htruthy.
  - destruct (Hok Htruthy) as [l Hl].
    unfold alloc, Stack.push, Stack.peek, deref. cbn. rewrite Hs. cbn.
    rewrite lookup_app_l by done. rewrite Hjson. cbn. rewrite Hl.
    eexists _, _. split; [reflexivity|]. cbn. split; [done|].
    split; [apply list_lookup_insert_eq; rewrite length_app; lia|].
    unfold children_of. rewrite Hl.
    split; [by rewrite lookup_insert_eq|]. split.
    + intros k Hk. by rewrite lookup_insert_ne.
    + intros r Hr Hlen. rewrite list_lookup_insert_ne by done.
      by rewrite lookup_app_l.
  - unfold alloc, Stack.push, Stack.peek, deref, store. cbn. rewrite Hs. cbn.
    rewrite lookup_app_l by (by rewrite length_insert).
    rewrite list_lookup_insert_eq by done. cbn. rewrite lookup_insert_eq.
    eexists _, _. split; [reflexivity|]. cbn. rewrite length_insert.
    split; [done|].
    split; [apply list_lookup_insert_eq; rewrite length_app, length_insert; lia|].
    assert (Hnone : children_of json = []).
    { unfold children_of. destruct (json !! "nodes") as [[| |l|]|]; try reflexivity.
      discriminate Htruthy. }
    rewrite Hnone.
    split; [by rewrite lookup_insert_eq|]. split.
    + intros k Hk. by rewrite !lookup_insert_ne.
    + intros r Hr Hlen. rewrite list_lookup_insert_ne by done.
      rewrite lookup_app_l by (by rewrite length_insert).
      by rewrite list_lookup_insert_ne.
Qed.

End OpenAndRun.

Lemma onopentag_hoists_attributes_witness :
  ∃ st' json,
    onopentag "org.accordproject.commonmark." sample_toUpperCase location_options
      "heading" {[ "level" := "2" ]} origin empty_state = Return st' ∧
    Stack.peek st' = Some 0 ∧
    heap st' !! 0 = Some json ∧
    json !! "level" = Some (VStr "2") ∧
    json !! "$class" = Some (VStr "org.accordproject.commonmark.Heading") ∧
    json !! "line" = Some (VNum 0).
Proof.
  destruct (onopentag_hoists_attributes "org.accordproject.commonmark."
              sample_toUpperCase location_options
              "heading" {[ "level" := "2" ]} origin empty_state)
    as (st' & json & Hret & Hpeek & Hheap & Hattr & Hclass & Hloc & _).
  - constructor.
  - vm_compute. reflexivity.
  - exists st', json. split; [exact Hret|]. split; [exact Hpeek|].
    split; [exact Hheap|]. split; [apply Hattr; vm_compute; reflexivity|].
    split; [apply Hclass; vm_compute; reflexivity|].
    apply (proj1 (Hloc eq_refl)). vm_compute. reflexivity.
Defined.

Lemma onopentag_links_child_witness :
  ∃ st' json',
    onopentag "org.accordproject.commonmark." sample_toUpperCase None "text" ∅ origin
      paragraph_frame_state
    = Return st' ∧
    stack st' = [1; 0] ∧
    heap st' !! 0 = Some json' ∧
    json' !! "nodes" = Some (VArr [1]).
Proof.
  destruct (onopentag_links_child "org.accordproject.commonmark." sample_toUpperCase
              None "text" ∅ origin
              paragraph_frame_state 0 paragraph_frame eq_refl eq_refl)
    as (st' & json' & Hret & Hstack & Hheap & Hnodes & _).
  - intros Htruthy. vm_compute in Htruthy. discriminate Htruthy.
  - exists st', json'. split; [exact Hret|]. split; [exact Hstack|].
    split; [exact Hheap|exact Hnodes].
Defined.

(** * Further properties of the runs *)

Section Runs.

Variable COMMON_NS_PREFIX : string.
Variable trim : string → string.
Variable toUpperCase : string → string.
Variable toLowerCase : string → string.
Variable parseFromString : option value → outcome (option DomDocument).
Variable options : option Options.

Local Abbreviation ontext4 :=
  (ontext COMMON_NS_PREFIX trim toLowerCase parseFromString options).
Local Abbreviation onopentag4 := (onopentag COMMON_NS_PREFIX toUpperCase options).
Local Abbreviation run4 :=
  (run COMMON_NS_PREFIX trim toUpperCase toLowerCase parseFromString options).
Local Abbreviation input_safe4 := (input_safe toLowerCase parseFromString options).
Local Abbreviation frames_safe4 := (frames_safe toLowerCase parseFromString options).
Local Abbreviation tags_safe4 := (tags_safe trim toLowerCase parseFromString options).

(** A text event allocates nothing. *)
Lemma ontext_keeps_heap_length (t : string) (st st' : state) :
  ontext4 t st = Return st' → length (heap st') = length (heap st).
Proof.
  destruct (Stack.peek st) as [head|] eqn:Hpeek.
  2:{ unfold ontext. rewrite Hpeek. by intros [= <-]. }
  destruct (heap st !! head) as [json|] eqn:Hjson.
  2:{ unfold ontext, deref. rewrite Hpeek, Hjson.
      destruct (0 <? String.length _)%nat; [discriminate|]. by intros [= <-]. }
  rewrite (ontext_unfold COMMON_NS_PREFIX trim toLowerCase parseFromString options
             t st head json Hpeek Hjson).
  assert (Hstore : ∀ json', length (heap (store head json' st)) = length (heap st)).
  { intros json'. cbn. by rewrite length_insert. }
  destruct (0 <? String.length _)%nat; [|by intros [= <-]].
  destruct (_ && _); [|by intros [= <-]].
  destruct (parseHtmlBlock _ _ _) as [[tagInfo|]|e]; [|by intros [= <-]..].
  destruct (make_tag _ _) as [tag|e]; [|discriminate].
  by intros [= <-].
Qed.

(** An open tag that returns has allocated one object. *)
Lemma onopentag_heap_length (name : string) (attributes : gmap string string)
    (pos : Position) (st st' : state) :
  onopentag4 name attributes pos st = Return st' →
  length (heap st') = S (length (heap st)).
Proof.
  unfold onopentag, alloc, Stack.push, Stack.peek, deref, store.
  destruct (stack st) as [|head s] eqn:Hs; cbn; rewrite ?Hs; cbn.
  - intros [= <-]. cbn. rewrite length_app. cbn. lia.
  - destruct (heap st !! head) as [json|] eqn:Hjson; cbn; [|discriminate].
    destruct (truthy (json !! "nodes")); cbn; rewrite ?Hs; cbn.
    + destruct ((heap st ++ _) !! head) as [o|]; cbn; [|discriminate].
      destruct (o !! "nodes") as [[| |l|]|]; cbn;
        try (destruct (negb _); discriminate); try discriminate.
      intros [= <-]. cbn. rewrite length_insert, length_app. cbn. lia.
    + destruct ((<[head:=_]> (heap st) ++ _) !! head) as [o|]; cbn; [|discriminate].
      destruct (o !! "nodes") as [[| |l|]|]; cbn;
        try (destruct (negb _); discriminate); try discriminate.
      intros [= <-]. cbn. rewrite length_insert, length_app, length_insert. cbn. lia.
Qed.

Lemma pop_frames_ok (st : state) : frames_ok st → frames_ok (Stack.pop st).
Proof.
  unfold frames_ok. cbn. destruct (stack st) as [|r s]; [done|].
  cbn. by intros [_ H]%Forall_cons.
Qed.

(** X22. On every stream, balanced or not, in which no open tag has a
    non-empty attribute named [nodes] and, when the option [tagInfo] is
    set, no text and no [info] field gives the HTML inspector a tag with
    an attribute named [hasOwnProperty], the handlers never throw, and
    the run allocates exactly one object for each open tag: text and
    close events create no node. *)
Theorem run_allocates_one_node_per_open (events : list event) (st : state) :
  frames_ok st →
  frames_safe4 st →
  no_nodes_attribute events = true →
  tags_safe4 events = true →
  ∃ st', run4 events st = Return st' ∧
         frames_ok st' ∧
         frames_safe4 st' ∧
         length (heap st') = length (heap st) + count_opens events.
Proof.
  revert st. induction events as [|e events IH]; intros st Hst Hsafe Hattr Htags.
  { exists st. cbn. repeat split; [done..|lia]. }
  unfold no_nodes_attribute in Hattr. cbn [forallb] in Hattr.
  apply andb_prop in Hattr as [Hattr_e Hattr].
  unfold tags_safe in Htags. cbn [forallb] in Htags.
  apply andb_prop in Htags as [Htags_e Htags].
  cbn [run handle count_opens]. destruct e as [name attributes pos|t|name].
  - destruct (onopentag_frames COMMON_NS_PREFIX toUpperCase options name attributes pos
                st Hst Hattr_e) as (st1 & Hret & Hstack1 & Hst1 & Hev1 & Hnew).
    pose proof (onopentag_safe COMMON_NS_PREFIX toUpperCase toLowerCase parseFromString
                  options name attributes pos st st1 Hsafe Htags_e Hstack1 Hev1 Hnew)
      as Hsafe1.
    pose proof (onopentag_heap_length name attributes pos st st1 Hret) as Hlen.
    cbn [handle]. rewrite Hret. cbn [mbind outcome_bind bind].
    destruct (IH st1 Hst1 Hsafe1 Hattr Htags) as (st' & Hrun & Hst' & Hsafe' & Hlen').
    exists st'. split; [done|]. split; [done|]. split; [done|]. lia.
  - destruct (ontext_frames COMMON_NS_PREFIX trim toLowerCase parseFromString options
                t st Hst Hsafe Htags_e) as (st1 & Hret & _ & Hst1 & Hsafe1 & _).
    pose proof (ontext_keeps_heap_length t st st1 Hret) as Hlen.
    cbn [handle]. rewrite Hret. cbn [mbind outcome_bind bind].
    destruct (IH st1 Hst1 Hsafe1 Hattr Htags) as (st' & Hrun & Hst' & Hsafe' & Hlen').
    exists st'. split; [done|]. split; [done|]. split; [done|]. lia.
  - cbn [handle]. rewrite onclosetag_pops. cbn [mbind outcome_bind bind].
    case_decide.
    + destruct (IH st Hst Hsafe Hattr Htags) as (st' & Hrun & Hst' & Hsafe' & Hlen').
      by exists st'.
    + destruct (IH (Stack.pop st) (pop_frames_ok st Hst)
                  (pop_safe toLowerCase parseFromString options st Hsafe) Hattr Htags)
        as (st' & Hrun & Hst' & Hsafe' & Hlen').
      by exists st'.
Qed.

Lemma run_balanced (events : list event) :
  ∀ (opened : list string) (st : state),
    balanced opened events = true →
    Forall (λ n, n ≠ "document") opened →
    forallb (λ e, negb (opens_document e)) events = true →
    no_nodes_attribute events = true →
    tags_safe4 events = true →
    frames_ok st →
    frames_safe4 st →
    length opened ≤ length (stack st) →
    ∃ st', run4 events st = Return st' ∧
           stack st' = drop (length opened) (stack st) ∧
           evolves st st'.
Proof.
  induction events as [|e events IH];
    intros opened st Hbal Hopened Hopen Hattr Htags Hst Hsafe Hlen.
  { destruct opened; [|discriminate Hbal]. exists st. cbn.
    split; [reflexivity|]. split; [reflexivity|apply evolves_refl]. }
  cbn [forallb] in Hopen. apply andb_prop in Hopen as [Hopen_e Hopen].
  unfold no_nodes_attribute in Hattr. cbn [forallb] in Hattr.
  apply andb_prop in Hattr as [Hattr_e Hattr].
  unfold tags_safe in Htags. cbn [forallb] in Htags.
  apply andb_prop in Htags as [Htags_e Htags].
  cbn [run]. destruct e as [name attributes pos|t|name]; cbn [handle balanced] in *.
  - destruct (onopentag_frames COMMON_NS_PREFIX toUpperCase options name attributes pos
                st Hst Hattr_e) as (st1 & -> & Hstack1 & Hst1 & Hev1 & Hnew).
    pose proof (onopentag_safe COMMON_NS_PREFIX toUpperCase toLowerCase parseFromString
                  options name attributes pos st st1 Hsafe Htags_e Hstack1 Hev1 Hnew)
      as Hsafe1.
    cbn [mbind outcome_bind bind].
    destruct (IH (name :: opened) st1 Hbal) as (st' & Hrun & Hstack' & Hev');
      [| done | done | done | done | done | rewrite Hstack1; cbn; lia |].
    { apply Forall_cons. split; [|done]. intros ->. discriminate Hopen_e. }
    exists st'. split; [done|]. split; [by rewrite Hstack', Hstack1|].
    by apply (evolves_trans st st1).
  - destruct (ontext_frames COMMON_NS_PREFIX trim toLowerCase parseFromString options
                t st Hst Hsafe Htags_e) as (st1 & -> & Hstack1 & Hst1 & Hsafe1 & Hev1).
    cbn [mbind outcome_bind bind].
    destruct (IH opened st1 Hbal) as (st' & Hrun & Hstack' & Hev');
      [done | done | done | done | done | done | by rewrite Hstack1 |].
    exists st'. split; [done|]. split; [by rewrite Hstack', Hstack1|].
    by apply (evolves_trans st st1).
  - destruct opened as [|top opened]; [discriminate Hbal|].
    apply andb_prop in Hbal as [Hname Hbal]. apply String.eqb_eq in Hname as ->.
    apply Forall_cons in Hopened as [Htop Hopened].
    rewrite onclosetag_pops, decide_False by done. cbn [mbind outcome_bind bind].
    destruct (stack st) as [|r s] eqn:Hs; [cbn in Hlen; lia|].
    destruct (IH opened (Stack.pop st) Hbal) as (st' & Hrun & Hstack' & Hev');
      [done | done | done | done | by apply pop_frames_ok | by apply pop_safe
      | cbn; rewrite Hs; cbn in *; lia |].
    exists st'. split; [done|]. split.
    + rewrite Hstack'. cbn. by rewrite Hs.
    + apply (evolves_trans st (Stack.pop st)); [apply pop_evolves|done].
Qed.

(** X23. The events of whole elements leave the stack as they found it:
    for a stream in which every close matches the innermost open element
    and nothing stays open, with no element named [document], no
    non-empty attribute named [nodes] and, when the option [tagInfo] is
    set, no text and no [info] field that gives the HTML inspector a tag
    with an attribute named [hasOwnProperty], the run returns with the
    same stack, whatever the depth at which it starts, and the objects
    that were there change in nothing but their children, text or tag. *)
Theorem run_balanced_restores_stack (events : list event) (st : state) :
  balanced [] events = true →
  forallb (λ e, negb (opens_document e)) events = true →
  no_nodes_attribute events = true →
  tags_safe4 events = true →
  frames_ok st →
  frames_safe4 st →
  ∃ st', run4 events st = Return st' ∧
         stack st' = stack st ∧
         evolves st st'.
Proof.
  intros Hbal Hopen Hattr Htags Hst Hsafe.
  destruct (run_balanced events [] st Hbal) as (st' & Hrun & Hstack & Hev);
    [constructor | done | done | done | done | done | cbn; lia |].
  by exists st'.
Qed.


End Runs.

Lemma run_allocates_one_node_per_open_witness :
  ∃ st', run "org.accordproject.commonmark." sample_trim sample_toUpperCase
           sample_toLowerCase sample_parser tagInfo_options fragment_events
           paragraph_frame_state = Return st' ∧
         length (heap st') = 4.
Proof.
  destruct (run_allocates_one_node_per_open "org.accordproject.commonmark."
              sample_trim sample_toUpperCase sample_toLowerCase
              sample_parser tagInfo_options fragment_events paragraph_frame_state)
    as (st' & Hrun & _ & _ & Hlen).
  - repeat constructor. exists paragraph_frame. split; [reflexivity|].
    intros Htruthy. vm_compute in Htruthy. discriminate Htruthy.
  - repeat constructor. exists paragraph_frame. split; [reflexivity|].
    vm_compute. reflexivity.
  - vm_compute. reflexivity.
  - vm_compute. reflexivity.
  - exists st'. split; [exact Hrun|exact Hlen].
Defined.

Lemma run_balanced_restores_stack_witness :
  ∃ st', run "org.accordproject.commonmark." sample_trim sample_toUpperCase
           sample_toLowerCase sample_parser tagInfo_options fragment_events
           paragraph_frame_state = Return st' ∧
         stack st' = [0].
Proof.
  destruct (run_balanced_restores_stack "org.accordproject.commonmark."
              sample_trim sample_toUpperCase sample_toLowerCase
              sample_parser tagInfo_options fragment_events paragraph_frame_state)
    as (st' & Hrun & Hstack & _).
  - vm_compute. reflexivity.
  - vm_compute. reflexivity.
  - vm_compute. reflexivity.
  - vm_compute. reflexivity.
  - repeat constructor. exists paragraph_frame. split; [reflexivity|].
    intros Htruthy. vm_compute in Htruthy. discriminate Htruthy.
  - repeat constructor. exists paragraph_frame. split; [reflexivity|].
    vm_compute. reflexivity.
  - exists st'. split; [exact Hrun|exact Hstack].
Defined.
